(** * Xenia CPU core: the Processor facade (src/xenia/cpu/processor.cc)

    A shallow embedding of [xe::cpu::Processor] and of the [BuiltinModule]
    defined next to it, followed by the properties of module listing, builtin
    allocation, lazy function resolution, the guest-call entry sequence and
    the IRQL cell.

    Conventions.
    - [uint32_t] and [uint64_t] values are integers of [Z]; the wrap-around
      of the arithmetic the source performs is written out ([wrap32],
      [wrap64]).
    - A pointer is the key under which the pointee is stored: a [Module*] is
      an index into [modules_], a [Function*] is a module index with a guest
      address, an [Entry*] is the guest address of the entry.  A null pointer
      is [None].
    - The methods of [Processor] are computations in a state-and-fault monad
      over the processor's fields.  A fault stands for what the source leaves
      undefined: dereferencing a null pointer or a failed [assert_*]. *)

From Stdlib Require Import ZArith Lia.
From stdpp Require Import base option list gmap strings.

Open Scope Z_scope.

(** ** Machine integers *)

Definition wrap32 (z : Z) : Z := z mod 2 ^ 32.
Definition wrap64 (z : Z) : Z := z mod 2 ^ 64.

(** ** Symbols ([Function]) *)

Module Symbol.
(** Modelled from the spec: [Symbol::Status] is declared outside
    processor.cc.  [kNew], [kDeclared], [kDefined] and [kFailed] are
    the constants processor.cc names; [kNew] is both the state of a symbol
    that was just created (the spec's UNDECLARED) and the answer [NEW] of
    declare/define; [kExisting] is the answer [EXISTING]. *)
Inductive Status : Set := kNew | kExisting | kDeclared | kDefined | kFailed.

Definition Status_eqb (a b : Status) : bool :=
  match a, b with
  | kNew, kNew | kExisting, kExisting | kDeclared, kDeclared
  | kDefined, kDefined | kFailed, kFailed => true
  | _, _ => false
  end.
End Symbol.

Module Function.
(** What [SetupBuiltin(handler, arg0, arg1)] binds to a builtin function:
    a host function pointer and two opaque pointers. *)
Record Builtin : Set := { handler : Z; arg0 : Z; arg1 : Z }.

Record t : Set := {
  address : Z;
  end_address : Z;
  name : string;
  status : Symbol.Status;
  is_guest : bool;
  builtin : option Builtin
}.

Definition set_end_address (e : Z) (f : t) : t :=
  {| address := address f; end_address := e; name := name f;
     status := status f; is_guest := is_guest f; builtin := builtin f |}.
Definition set_name (n : string) (f : t) : t :=
  {| address := address f; end_address := end_address f; name := n;
     status := status f; is_guest := is_guest f; builtin := builtin f |}.
Definition set_status (s : Symbol.Status) (f : t) : t :=
  {| address := address f; end_address := end_address f; name := name f;
     status := s; is_guest := is_guest f; builtin := builtin f |}.
Definition SetupBuiltin (h a0 a1 : Z) (f : t) : t :=
  {| address := address f; end_address := end_address f; name := name f;
     status := status f; is_guest := is_guest f;
     builtin := Some {| handler := h; arg0 := a0; arg1 := a1 |} |}.
End Function.

(** Modelled from the spec: the constructors of [GuestFunction] and
    [BuiltinFunction] are defined outside processor.cc.  A symbol is created
    with its address, no extent, no name, in the state UNDECLARED. *)
Definition GuestFunction (address : Z) : Function.t :=
  {| Function.address := address; Function.end_address := 0;
     Function.name := ""; Function.status := Symbol.kNew;
     Function.is_guest := true; Function.builtin := None |}.

Definition BuiltinFunction (address : Z) : Function.t :=
  {| Function.address := address; Function.end_address := 0;
     Function.name := ""; Function.status := Symbol.kNew;
     Function.is_guest := false; Function.builtin := None |}.

(** A [Function*]: the owning module (an index into [modules_]) and the
    guest address under which the module stores the symbol. *)
Record FunctionPtr : Set := { fn_module : nat; fn_address : Z }.

(** ** Modules *)

(** The abstract class [Module]: its two virtual members and the symbol map
    it owns. *)
Record CpuModule : Type := {
  name : string;
  ContainsAddress : Z -> bool;
  CreateFunction : Z -> Function.t;
  map_ : gmap Z Function.t
}.

Definition with_map (f : gmap Z Function.t -> gmap Z Function.t)
    (m : CpuModule) : CpuModule :=
  {| name := name m; ContainsAddress := ContainsAddress m;
     CreateFunction := CreateFunction m; map_ := f (map_ m) |}.

(** [class BuiltinModule : public Module]. *)
Definition BuiltinModule : CpuModule :=
  {| name := "builtin";
     ContainsAddress := fun address =>
       Z.land address 0xFFFFFFF0 =? 0xFFFFFFF0;
     CreateFunction := fun address => BuiltinFunction address;
     map_ := ∅ |}.

(** ** The entry table *)

Module Entry.
(** Modelled from the spec: [Entry] is declared outside processor.cc; its
    status is one of NEW, READY, FAILED. *)
Inductive Status : Set := STATUS_NEW | STATUS_READY | STATUS_FAILED.

Record t : Set := {
  address : Z;
  end_address : Z;
  status : Status;
  function : option FunctionPtr
}.

Definition set_status (s : Status) (e : t) : t :=
  {| address := address e; end_address := end_address e; status := s;
     function := function e |}.
Definition set_end_address (a : Z) (e : t) : t :=
  {| address := address e; end_address := a; status := status e;
     function := function e |}.
Definition set_function (f : option FunctionPtr) (e : t) : t :=
  {| address := address e; end_address := end_address e;
     status := status e; function := f |}.
End Entry.

(** ** Guest register context *)

(** The part of [PPCContext] the processor touches: the 32 general purpose
    registers [r] and the link register [lr], all 64 bits wide. *)
Record PPCContext : Set := { r : list Z; lr : Z }.

Record ThreadState : Set := { context : PPCContext }.

Definition set_lr (v : Z) (c : PPCContext) : PPCContext :=
  {| r := r c; lr := v |}.
(** [context->r[i] = v]. *)
Definition set_r (i : nat) (v : Z) (c : PPCContext) : PPCContext :=
  {| r := <[i := v]> (r c); lr := lr c |}.
(** [context->r[i]], read. *)
Definition get_r (i : nat) (c : PPCContext) : Z := r c !!! i.

(** The register file has 32 registers of 64 bits. *)
Definition wf_context (c : PPCContext) : Prop :=
  length (r c) = 32%nat ∧ Forall (fun v => 0 <= v < 2 ^ 64) (r c)
  ∧ 0 <= lr c < 2 ^ 64.

(** ** The processor *)

Inductive Backend : Set := X64Backend.
Inductive PPCFrontend : Set := mkPPCFrontend.
Inductive StackWalker : Set := mkStackWalker.

(** One invocation of the frontend, kept as a trace next to the fields. *)
Inductive FrontendCall : Set :=
| FeDeclare (address : Z)
| FeDefine (address : Z) (debug_info_flags : Z).

Record Processor : Type := {
  memory_ : option nat;
  debugger_ : option nat;
  export_resolver_ : option nat;
  frontend_ : option PPCFrontend;
  backend_ : option Backend;
  stack_walker_ : option StackWalker;
  modules_ : list CpuModule;
  builtin_module_ : option nat;
  next_builtin_address_ : Z;
  entry_table_ : gmap Z Entry.t;
  debug_info_flags_ : Z;
  irql_ : Z;
  (* traces of the calls into the collaborators *)
  frontend_calls : list FrontendCall;
  debugger_events : list FunctionPtr
}.

Definition set_frontend (v : option PPCFrontend) (p : Processor) :=
  {| memory_ := memory_ p; debugger_ := debugger_ p;
     export_resolver_ := export_resolver_ p; frontend_ := v;
     backend_ := backend_ p; stack_walker_ := stack_walker_ p;
     modules_ := modules_ p; builtin_module_ := builtin_module_ p;
     next_builtin_address_ := next_builtin_address_ p;
     entry_table_ := entry_table_ p;
     debug_info_flags_ := debug_info_flags_ p; irql_ := irql_ p;
     frontend_calls := frontend_calls p;
     debugger_events := debugger_events p |}.
Definition set_backend (v : option Backend) (p : Processor) :=
  {| memory_ := memory_ p; debugger_ := debugger_ p;
     export_resolver_ := export_resolver_ p; frontend_ := frontend_ p;
     backend_ := v; stack_walker_ := stack_walker_ p;
     modules_ := modules_ p; builtin_module_ := builtin_module_ p;
     next_builtin_address_ := next_builtin_address_ p;
     entry_table_ := entry_table_ p;
     debug_info_flags_ := debug_info_flags_ p; irql_ := irql_ p;
     frontend_calls := frontend_calls p;
     debugger_events := debugger_events p |}.
Definition set_stack_walker (v : option StackWalker) (p : Processor) :=
  {| memory_ := memory_ p; debugger_ := debugger_ p;
     export_resolver_ := export_resolver_ p; frontend_ := frontend_ p;
     backend_ := backend_ p; stack_walker_ := v;
     modules_ := modules_ p; builtin_module_ := builtin_module_ p;
     next_builtin_address_ := next_builtin_address_ p;
     entry_table_ := entry_table_ p;
     debug_info_flags_ := debug_info_flags_ p; irql_ := irql_ p;
     frontend_calls := frontend_calls p;
     debugger_events := debugger_events p |}.
Definition set_modules (f : list CpuModule -> list CpuModule)
    (p : Processor) :=
  {| memory_ := memory_ p; debugger_ := debugger_ p;
     export_resolver_ := export_resolver_ p; frontend_ := frontend_ p;
     backend_ := backend_ p; stack_walker_ := stack_walker_ p;
     modules_ := f (modules_ p); builtin_module_ := builtin_module_ p;
     next_builtin_address_ := next_builtin_address_ p;
     entry_table_ := entry_table_ p;
     debug_info_flags_ := debug_info_flags_ p; irql_ := irql_ p;
     frontend_calls := frontend_calls p;
     debugger_events := debugger_events p |}.
Definition set_builtin_module (v : option nat) (p : Processor) :=
  {| memory_ := memory_ p; debugger_ := debugger_ p;
     export_resolver_ := export_resolver_ p; frontend_ := frontend_ p;
     backend_ := backend_ p; stack_walker_ := stack_walker_ p;
     modules_ := modules_ p; builtin_module_ := v;
     next_builtin_address_ := next_builtin_address_ p;
     entry_table_ := entry_table_ p;
     debug_info_flags_ := debug_info_flags_ p; irql_ := irql_ p;
     frontend_calls := frontend_calls p;
     debugger_events := debugger_events p |}.
Definition set_next_builtin_address (v : Z) (p : Processor) :=
  {| memory_ := memory_ p; debugger_ := debugger_ p;
     export_resolver_ := export_resolver_ p; frontend_ := frontend_ p;
     backend_ := backend_ p; stack_walker_ := stack_walker_ p;
     modules_ := modules_ p; builtin_module_ := builtin_module_ p;
     next_builtin_address_ := v;
     entry_table_ := entry_table_ p;
     debug_info_flags_ := debug_info_flags_ p; irql_ := irql_ p;
     frontend_calls := frontend_calls p;
     debugger_events := debugger_events p |}.
Definition set_entry_table (f : gmap Z Entry.t -> gmap Z Entry.t)
    (p : Processor) :=
  {| memory_ := memory_ p; debugger_ := debugger_ p;
     export_resolver_ := export_resolver_ p; frontend_ := frontend_ p;
     backend_ := backend_ p; stack_walker_ := stack_walker_ p;
     modules_ := modules_ p; builtin_module_ := builtin_module_ p;
     next_builtin_address_ := next_builtin_address_ p;
     entry_table_ := f (entry_table_ p);
     debug_info_flags_ := debug_info_flags_ p; irql_ := irql_ p;
     frontend_calls := frontend_calls p;
     debugger_events := debugger_events p |}.
Definition set_debug_info_flags (v : Z) (p : Processor) :=
  {| memory_ := memory_ p; debugger_ := debugger_ p;
     export_resolver_ := export_resolver_ p; frontend_ := frontend_ p;
     backend_ := backend_ p; stack_walker_ := stack_walker_ p;
     modules_ := modules_ p; builtin_module_ := builtin_module_ p;
     next_builtin_address_ := next_builtin_address_ p;
     entry_table_ := entry_table_ p;
     debug_info_flags_ := v; irql_ := irql_ p;
     frontend_calls := frontend_calls p;
     debugger_events := debugger_events p |}.
Definition set_irql (v : Z) (p : Processor) :=
  {| memory_ := memory_ p; debugger_ := debugger_ p;
     export_resolver_ := export_resolver_ p; frontend_ := frontend_ p;
     backend_ := backend_ p; stack_walker_ := stack_walker_ p;
     modules_ := modules_ p; builtin_module_ := builtin_module_ p;
     next_builtin_address_ := next_builtin_address_ p;
     entry_table_ := entry_table_ p;
     debug_info_flags_ := debug_info_flags_ p; irql_ := v;
     frontend_calls := frontend_calls p;
     debugger_events := debugger_events p |}.
Definition log_frontend_call (c : FrontendCall) (p : Processor) :=
  {| memory_ := memory_ p; debugger_ := debugger_ p;
     export_resolver_ := export_resolver_ p; frontend_ := frontend_ p;
     backend_ := backend_ p; stack_walker_ := stack_walker_ p;
     modules_ := modules_ p; builtin_module_ := builtin_module_ p;
     next_builtin_address_ := next_builtin_address_ p;
     entry_table_ := entry_table_ p;
     debug_info_flags_ := debug_info_flags_ p; irql_ := irql_ p;
     frontend_calls := frontend_calls p ++ [c];
     debugger_events := debugger_events p |}.
Definition log_debugger_event (f : FunctionPtr) (p : Processor) :=
  {| memory_ := memory_ p; debugger_ := debugger_ p;
     export_resolver_ := export_resolver_ p; frontend_ := frontend_ p;
     backend_ := backend_ p; stack_walker_ := stack_walker_ p;
     modules_ := modules_ p; builtin_module_ := builtin_module_ p;
     next_builtin_address_ := next_builtin_address_ p;
     entry_table_ := entry_table_ p;
     debug_info_flags_ := debug_info_flags_ p; irql_ := irql_ p;
     frontend_calls := frontend_calls p;
     debugger_events := debugger_events p ++ [f] |}.

(** ** The collaborators

    The frontend, the backend, the stack walker and the native code behind
    [Function::Call] live outside processor.cc.  The processor only consumes
    their answers, so they are taken as oracles. *)
Record Host : Type := {
  (** the gflags option [--cpu] *)
  FLAGS_cpu : string;
  (** the preprocessor switch of the same name *)
  XENIA_HAS_X64_BACKEND : bool;
  (** [backend->Initialize()] *)
  Backend_Initialize : Backend -> bool;
  (** [frontend->Initialize()] *)
  Frontend_Initialize : bool;
  (** [StackWalker::Create(code_cache)]; [None] is the null pointer *)
  StackWalker_Create : option StackWalker;
  (** [frontend_->DeclareFunction(function)]: given the calls made so far
      and the function's address, the extent found, or [None] on failure *)
  PPCFrontend_DeclareFunction : list FrontendCall -> Z -> option Z;
  (** [frontend_->DefineFunction(function, debug_info_flags)] *)
  PPCFrontend_DefineFunction : list FrontendCall -> Z -> Z -> bool;
  (** [function->Call(thread_state, return_address)]: the callee runs to
      completion; it may change the guest context as it likes and may call
      back into the processor *)
  Function_Call :
    FunctionPtr -> Z -> Processor -> PPCContext -> bool * Processor * PPCContext
}.

(** ** The state-and-fault monad *)

Definition M (A : Type) : Type := Processor -> option (A * Processor).

Definition ret {A} (a : A) : M A := fun p => Some (a, p).
Definition bind {A B} (c : M A) (k : A -> M B) : M B :=
  fun p => match c p with
           | Some (a, p') => k a p'
           | None => None
           end.
(** Undefined behaviour of the source. *)
Definition fault {A} : M A := fun _ => None.
Definition gets {A} (f : Processor -> A) : M A := fun p => Some (f p, p).
Definition modify (f : Processor -> Processor) : M unit :=
  fun p => Some (tt, f p).
(** [*ptr] *)
Definition deref {A} (o : option A) : M A :=
  match o with Some a => ret a | None => fault end.
Definition assert_true (b : bool) : M unit :=
  if b then ret tt else fault.

Declare Scope proc_scope.
Notation "'do' X <- A ; B" := (bind A (fun X => B))
  (at level 10, X name, A at level 100, B at level 200) : proc_scope.
Notation "'do' ( X , Y ) <- A ; B" := (bind A (fun '(X, Y) => B))
  (at level 10, X name, Y name, A at level 100, B at level 200) : proc_scope.
Notation "A ;; B" := (bind A (fun _ => B))
  (at level 100, B at level 200, right associativity, only parsing)
  : proc_scope.
Local Open Scope proc_scope.

(** ** Collaborators inside the repository but outside processor.cc *)

(** Modelled from the spec: [EntryTable::GetOrCreate] is defined outside
    processor.cc.  It returns the entry for the address and its
    status-at-insertion: a missing entry is inserted in state NEW; an entry
    that is there is returned with the status it has (an entry left in NEW
    answers NEW again, so that the caller retries).  The [Entry*] handed
    back is the address itself. *)
Definition EntryTable_GetOrCreate (address : Z) : M Entry.Status :=
  do table <- gets entry_table_;
  match table !! address with
  | Some entry => ret (Entry.status entry)
  | None =>
      modify (set_entry_table
        (<[address := {| Entry.address := address; Entry.end_address := 0;
                         Entry.status := Entry.STATUS_NEW;
                         Entry.function := None |}]>)) ;;
      ret Entry.STATUS_NEW
  end.

(** Modelled from the spec: [EntryTable::Get] is defined outside
    processor.cc; a read-only lookup. *)
Definition EntryTable_Get (address : Z) : M (option Entry.t) :=
  do table <- gets entry_table_;
  ret (table !! address).

(** [*entry], read, and [entry->field = ...]. *)
Definition read_entry (entry : Z) : M Entry.t :=
  do table <- gets entry_table_;
  deref (table !! entry).
Definition write_entry (entry : Z) (f : Entry.t -> Entry.t) : M unit :=
  do e <- read_entry entry;
  modify (set_entry_table (<[entry := f e]>)).

(** [*module]. *)
Definition read_module (m : nat) : M CpuModule :=
  do mods <- gets modules_;
  deref (mods !! m).

(** [*function], read, and [function->set_...(...)]. *)
Definition read_function (function : FunctionPtr) : M Function.t :=
  do md <- read_module (fn_module function);
  deref (map_ md !! fn_address function).
Definition write_function (function : FunctionPtr)
    (f : Function.t -> Function.t) : M unit :=
  do md <- read_module (fn_module function);
  do fn <- deref (map_ md !! fn_address function);
  modify (set_modules
    (<[fn_module function := with_map (<[fn_address function := f fn]>) md]>)).

(** Modelled from the spec: [Module::DeclareFunction] is defined outside
    processor.cc.  If the module has no symbol at the address, one is created by
    the module's factory and the answer is NEW; otherwise the answer is
    EXISTING with the symbol that is there. *)
Definition Module_DeclareFunction (m : nat) (address : Z)
    : M (Symbol.Status * FunctionPtr) :=
  do md <- read_module m;
  let function := {| fn_module := m; fn_address := address |} in
  match map_ md !! address with
  | Some _ => ret (Symbol.kExisting, function)
  | None =>
      modify (set_modules
        (<[m := with_map (<[address := CreateFunction md address]>) md]>)) ;;
      ret (Symbol.kNew, function)
  end.

(** Modelled from the spec: [Module::DefineFunction] is defined outside
    processor.cc.  The caller that finds the symbol DECLARED is answered NEW and
    has to define it; a FAILED symbol answers FAILED; every other caller is
    answered EXISTING. *)
Definition Module_DefineFunction (function : FunctionPtr) : M Symbol.Status :=
  do fn <- read_function function;
  match Function.status fn with
  | Symbol.kDeclared => ret Symbol.kNew
  | Symbol.kFailed => ret Symbol.kFailed
  | _ => ret Symbol.kExisting
  end.

(** Modelled from the spec: [xe::atomic_exchange(new_value, &irql_)] is
    defined in xenia/base/atomic.h, outside processor.cc; it stores the new value in the cell and returns
    the value the cell held. *)
Definition atomic_exchange_irql (new_value : Z) : M Z :=
  do old <- gets irql_;
  modify (set_irql new_value) ;;
  ret old.

Section Processor.

Variable host : Host.

(** [frontend_->DeclareFunction(function)] *)
Definition Frontend_DeclareFunction (function : FunctionPtr) : M bool :=
  do fe <- gets frontend_;
  deref fe ;;
  do calls <- gets frontend_calls;
  modify (log_frontend_call (FeDeclare (fn_address function))) ;;
  match PPCFrontend_DeclareFunction host calls (fn_address function) with
  | Some extent =>
      write_function function (Function.set_end_address extent) ;;
      ret true
  | None => ret false
  end.

(** [frontend_->DefineFunction(function, debug_info_flags_)] *)
Definition Frontend_DefineFunction (function : FunctionPtr)
    (debug_info_flags : Z) : M bool :=
  do fe <- gets frontend_;
  deref fe ;;
  do calls <- gets frontend_calls;
  modify (log_frontend_call
            (FeDefine (fn_address function) debug_info_flags)) ;;
  ret (PPCFrontend_DefineFunction host calls (fn_address function)
         debug_info_flags).

(** The constructor [Processor::Processor].  The members it does not
    name take the initialisers of processor.h; the one of
    [next_builtin_address_], the start of the builtin address range, is a
    parameter here. *)
Definition Processor_new (memory export_resolver debugger : option nat)
    (first_builtin_address : Z) : Processor :=
  {| memory_ := memory; debugger_ := debugger;
     export_resolver_ := export_resolver;
     frontend_ := None; backend_ := None; stack_walker_ := None;
     modules_ := []; builtin_module_ := None;
     next_builtin_address_ := first_builtin_address;
     entry_table_ := ∅; debug_info_flags_ := 0; irql_ := 0;
     frontend_calls := []; debugger_events := [] |}.

(** The backend selection in the middle of [Setup]. *)
Definition select_backend : option Backend :=
  let backend : option Backend := None in
  if negb (bool_decide (is_Some backend)) then
    let backend :=
      if XENIA_HAS_X64_BACKEND host then
        if String.eqb (FLAGS_cpu host) "x64" then Some X64Backend
        else backend
      else backend in
    if String.eqb (FLAGS_cpu host) "any" then
      if XENIA_HAS_X64_BACKEND host then
        if negb (bool_decide (is_Some backend)) then Some X64Backend
        else backend
      else backend
    else backend
  else backend.

Definition Setup : M bool :=
  modify (set_debug_info_flags 0) ;;
  let frontend := mkPPCFrontend in
  do memory <- gets memory_;
  assert_true (bool_decide (is_Some memory)) ;;
  do mods <- gets modules_;
  modify (set_builtin_module (Some (length mods))) ;;
  modify (set_modules (fun ms => ms ++ [BuiltinModule])) ;;
  do fe <- gets frontend_;
  do be <- gets backend_;
  if bool_decide (is_Some fe) || bool_decide (is_Some be) then ret false
  else
    match select_backend with
    | None => ret false
    | Some backend =>
        if negb (Backend_Initialize host backend) then ret false
        else if negb (Frontend_Initialize host) then ret false
        else
          modify (set_backend (Some backend)) ;;
          modify (set_frontend (Some frontend)) ;;
          modify (set_stack_walker (StackWalker_Create host)) ;;
          do sw <- gets stack_walker_;
          if negb (bool_decide (is_Some sw)) then ret false
          else ret true
    end.

Definition AddModule (module : CpuModule) : M bool :=
  modify (set_modules (fun ms => ms ++ [module])) ;;
  ret true.

Definition GetModule (name' : string) : M (option nat) :=
  do mods <- gets modules_;
  ret (fst <$> list_find (fun module => String.eqb (name module) name' = true)
                 mods).

(** [std::vector<Module*> clone(modules_.size())] holds [modules_.size()]
    null pointers; every [push_back] appends behind them. *)
Definition GetModules : M (list (option nat)) :=
  do mods <- gets modules_;
  let clone := replicate (length mods) None in
  ret (foldl (fun clone module => clone ++ [Some module]) clone
         (seq 0 (length mods))).

Definition DefineBuiltin (name' : string) (handler arg0 arg1 : Z)
    : M FunctionPtr :=
  do address <- gets next_builtin_address_;
  modify (set_next_builtin_address (wrap32 (address + 4))) ;;
  do builtin_module <- gets builtin_module_;
  do bm <- deref builtin_module;
  do (_, function) <- Module_DeclareFunction bm address;
  write_function function (Function.set_end_address (wrap32 (address + 4))) ;;
  write_function function (Function.set_name name') ;;
  write_function function (Function.SetupBuiltin handler arg0 arg1) ;;
  write_function function (Function.set_status Symbol.kDeclared) ;;
  ret function.

Definition QueryFunction (address : Z) : M (option FunctionPtr) :=
  do entry <- EntryTable_Get address;
  match entry with
  | None => ret None
  | Some e => ret (Entry.function e)
  end.

(** [LookupFunction(Module* module, uint32_t address)] *)
Definition LookupFunction_in (module : nat) (address : Z)
    : M (option FunctionPtr) :=
  do (symbol_status, function) <- Module_DeclareFunction module address;
  if Symbol.Status_eqb symbol_status Symbol.kNew then
    do fn <- read_function function;
    assert_true (Function.is_guest fn) ;;
    do declared <- Frontend_DeclareFunction function;
    if negb declared then
      write_function function (Function.set_status Symbol.kFailed) ;;
      ret None
    else
      write_function function (Function.set_status Symbol.kDeclared) ;;
      ret (Some function)
  else ret (Some function).

(** [LookupFunction(uint32_t address)] *)
Definition LookupFunction (address : Z) : M (option FunctionPtr) :=
  do mods <- gets modules_;
  let code_module :=
    fst <$> list_find (fun module => ContainsAddress module address = true)
              mods in
  match code_module with
  | None => ret None
  | Some module => LookupFunction_in module address
  end.

Definition DemandFunction (function : FunctionPtr) : M bool :=
  let module := fn_module function in
  do symbol_status <- Module_DefineFunction function;
  let finish (symbol_status : Symbol.Status) : M bool :=
    if Symbol.Status_eqb symbol_status Symbol.kFailed then ret false
    else ret true in
  if Symbol.Status_eqb symbol_status Symbol.kNew then
    do fn <- read_function function;
    assert_true (Function.is_guest fn) ;;
    do flags <- gets debug_info_flags_;
    do defined <- Frontend_DefineFunction function flags;
    if negb defined then
      write_function function (Function.set_status Symbol.kFailed) ;;
      ret false
    else
      do debugger <- gets debugger_;
      (if bool_decide (is_Some debugger)
       then modify (log_debugger_event function) else ret tt) ;;
      write_function function (Function.set_status Symbol.kDefined) ;;
      do fn <- read_function function;
      finish (Function.status fn)
  else finish symbol_status.

Definition ResolveFunction (address : Z) : M (option FunctionPtr) :=
  do status <- EntryTable_GetOrCreate address;
  let entry := address in
  let finish (status : Entry.Status) : M (option FunctionPtr) :=
    match status with
    | Entry.STATUS_READY =>
        do e <- read_entry entry;
        ret (Entry.function e)
    | _ => ret None
    end in
  match status with
  | Entry.STATUS_NEW =>
      do function <- LookupFunction address;
      match function with
      | None => ret None
      | Some function =>
          do demanded <- DemandFunction function;
          if negb demanded then
            write_entry entry (Entry.set_status Entry.STATUS_FAILED) ;;
            ret None
          else
            write_entry entry (Entry.set_function (Some function)) ;;
            do fn <- read_function function;
            write_entry entry
              (Entry.set_end_address (Function.end_address fn)) ;;
            write_entry entry (Entry.set_status Entry.STATUS_READY) ;;
            finish Entry.STATUS_READY
      end
  | _ => finish status
  end.

(** [function->Call(thread_state, return_address)] *)
Definition Call (function : FunctionPtr) (return_address : Z)
    (ctx : PPCContext) : M (bool * PPCContext) :=
  fun p =>
    let '(result, p', ctx') := Function_Call host function return_address p ctx in
    Some ((result, ctx'), p').

(** [bool Execute(ThreadState*, uint32_t address)].  The thread state is
    passed in and handed back as the callee and the adapter left it. *)
Definition Execute (thread_state : ThreadState) (address : Z)
    : M (bool * ThreadState) :=
  do function <- ResolveFunction address;
  match function with
  | None => ret (false, thread_state)
  | Some function =>
      let ctx := context thread_state in
      let ctx := set_r 1 (wrap64 (get_r 1 ctx - (64 + 112))) ctx in
      let previous_lr := lr ctx in
      let ctx := set_lr 0xBCBCBCBC ctx in
      do (result, ctx) <- Call function (wrap32 (lr ctx)) ctx;
      let ctx := set_lr previous_lr ctx in
      let ctx := set_r 1 (wrap64 (get_r 1 ctx + (64 + 112))) ctx in
      ret (result, {| context := ctx |})
  end.

(** The loop [for (i = 0; i < arg_count; ++i) context->r[3 + i] = args[i]],
    with [n] iterations to go.  Reading [args] past its end is a fault. *)
Fixpoint marshal_args (args : list Z) (i n : nat) (ctx : PPCContext)
    : option PPCContext :=
  match n with
  | O => Some ctx
  | S n' =>
      match args !! i with
      | Some v => marshal_args args (S i) n' (set_r (3 + i) v ctx)
      | None => None
      end
  end.

(** [uint64_t Execute(ThreadState*, uint32_t address, uint64_t args[],
    size_t arg_count)] *)
Definition Execute_args (thread_state : ThreadState) (address : Z)
    (args : list Z) (arg_count : nat) : M (Z * ThreadState) :=
  let ctx := context thread_state in
  assert_true (bool_decide (arg_count ≤ 5)%nat) ;;
  do ctx <- deref (marshal_args args 0 arg_count ctx);
  do (ok, thread_state) <- Execute {| context := ctx |} address;
  if negb ok then ret (0xDEADBABE, thread_state)
  else ret (get_r 3 (context thread_state), thread_state).

(** [Irql] is an enumeration over [uint32_t]: the casts to and from
    [uint32_t] keep the value. *)
Definition RaiseIrql (new_value : Z) : M Z :=
  do old <- atomic_exchange_irql new_value;
  ret old.

(** [void LowerIrql(Irql old_value)]: the result of the exchange is
    dropped. *)
Definition LowerIrql (old_value : Z) : M unit :=
  atomic_exchange_irql old_value ;;
  ret tt.

End Processor.

(** ** The two halves of the guest-call adapter *)

(** The context the callee is entered with: the stack pointer lowered by
    [64 + 112] and the link register set to the sentinel. *)
Definition entry_context (ctx : PPCContext) : PPCContext :=
  set_lr 0xBCBCBCBC (set_r 1 (wrap64 (get_r 1 ctx - (64 + 112))) ctx).

(** The context the adapter hands back, from the caller's link register
    and the context [out] the callee left. *)
Definition exit_context (previous_lr : Z) (out : PPCContext) : PPCContext :=
  set_r 1 (wrap64 (get_r 1 (set_lr previous_lr out) + (64 + 112)))
    (set_lr previous_lr out).

(** The address the [k]-th call of [DefineBuiltin] allocates when the
    cursor starts at [start]. *)
Definition nth_builtin_address (start : Z) (k : nat) : Z :=
  wrap32 (start + 4 * Z.of_nat k).

(** What the adapter guarantees about [lr] and [r1], between the context
    [before] the call and the one handed back [after] it, when resolution
    gave [function] and left the processor in [p1]. *)
Definition adapter_frame (host : Host) (function : option FunctionPtr)
    (p1 : Processor) (before after : PPCContext) : Prop :=
  lr after = lr before
  /\ match function with
     | None => after = before
     | Some f =>
         let ctx_in := entry_context before in
         let out := Function_Call host f 0xBCBCBCBC p1 ctx_in in
         lr ctx_in = 0xBCBCBCBC
         /\ get_r 1 ctx_in = wrap64 (get_r 1 before - 176)
         /\ get_r 1 after = wrap64 (get_r 1 out.2 + 176)
         /\ (get_r 1 out.2 = get_r 1 ctx_in ->
             get_r 1 after = get_r 1 before)
     end.

(** ** Callers: sequences of requests *)

(** What a caller passes to [DefineBuiltin]. *)
Record BuiltinRequest : Set := {
  bi_name : string; bi_handler : Z; bi_arg0 : Z; bi_arg1 : Z
}.

(** The calls a client makes on a processor, short of executing guest
    code. *)
Inductive Request : Type :=
| Resolve (address : Z)
| Query (address : Z)
| Define (builtin : BuiltinRequest)
| Attach (module : CpuModule)
| Boot.

Inductive Reply : Set :=
| Found (function : option FunctionPtr)
| Done (ok : bool).

Definition serve1 (host : Host) (request : Request) : M Reply :=
  match request with
  | Resolve address =>
      do x <- ResolveFunction host address; ret (Found x)
  | Query address =>
      do x <- QueryFunction address; ret (Found x)
  | Define b =>
      do f <- DefineBuiltin (bi_name b) (bi_handler b) (bi_arg0 b) (bi_arg1 b);
      ret (Found (Some f))
  | Attach module =>
      do ok <- AddModule module; ret (Done ok)
  | Boot =>
      do ok <- Setup host; ret (Done ok)
  end.

(** A client that makes one call after the other. *)
Fixpoint serve (host : Host) (requests : list Request) : M (list Reply) :=
  match requests with
  | [] => ret []
  | request :: rest =>
      do x <- serve1 host request;
      do xs <- serve host rest;
      ret (x :: xs)
  end.

(** A client that defines one builtin after the other. *)
Fixpoint DefineBuiltin_each (builtins : list BuiltinRequest)
    : M (list FunctionPtr) :=
  match builtins with
  | [] => ret []
  | b :: rest =>
      do f <- DefineBuiltin (bi_name b) (bi_handler b) (bi_arg0 b) (bi_arg1 b);
      do fs <- DefineBuiltin_each rest;
      ret (f :: fs)
  end.

(** What a builtin symbol looks like when [DefineBuiltin] returns it. *)
Definition defined_as (b : BuiltinRequest) (address : Z) (fn : Function.t)
    : Prop :=
  Function.end_address fn = wrap32 (address + 4)
  /\ Function.status fn = Symbol.kDeclared
  /\ Function.name fn = bi_name b
  /\ Function.builtin fn
     = Some {| Function.handler := bi_handler b;
               Function.arg0 := bi_arg0 b; Function.arg1 := bi_arg1 b |}.

(** The backends compiled in, in the order [Setup] tries them. *)
Definition available_backends (host : Host) : list Backend :=
  if XENIA_HAS_X64_BACKEND host then [X64Backend] else [].

(** The symbol a [Function*] points to, if it points to one. *)
Definition symbol_at (function : FunctionPtr) (p : Processor)
    : option Function.t :=
  match modules_ p !! fn_module function with
  | Some md => map_ md !! fn_address function
  | None => None
  end.

(** The state a computation ends in ([p] itself when it faults). *)
Definition exec {A} (c : M A) (p : Processor) : Processor :=
  match c p with Some (_, p') => p' | None => p end.

(** [post c p Q]: if [c] runs from [p] without fault, its result and final
    state satisfy [Q]. *)
Definition post {A} (c : M A) (p : Processor)
    (Q : A -> Processor -> Prop) : Prop :=
  forall a p', c p = Some (a, p') -> Q a p'.

(** ** Concrete collaborators and states, for the examples *)

Module Fixture.

(** A guest image mapped at [0x82000000 .. 0x83000000). *)
Definition game : CpuModule :=
  {| name := "game.xex";
     ContainsAddress := fun a => (0x82000000 <=? a) && (a <? 0x83000000);
     CreateFunction := GuestFunction;
     map_ := ∅ |}.

(** A host with an x64 backend where every initialisation succeeds; the
    frontend and the callee are given. *)
Definition host_with (declare : Z -> option Z) (define : Z -> bool)
    (call : PPCContext -> bool * PPCContext) : Host :=
  {| FLAGS_cpu := "any";
     XENIA_HAS_X64_BACKEND := true;
     Backend_Initialize := fun _ => true;
     Frontend_Initialize := true;
     StackWalker_Create := Some mkStackWalker;
     PPCFrontend_DeclareFunction := fun _ a => declare a;
     PPCFrontend_DefineFunction := fun _ a _ => define a;
     Function_Call := fun _ _ p c => let '(b, c') := call c in (b, p, c') |}.

(** Every function is 0x40 bytes long and translates; the callee returns
    at once. *)
Definition good : Host :=
  host_with (fun a => Some (a + 0x40)) (fun _ => true) (fun c => (true, c)).
(** The frontend cannot declare anything. *)
Definition declare_fails : Host :=
  host_with (fun _ => None) (fun _ => true) (fun c => (true, c)).
(** The frontend cannot define anything. *)
Definition define_fails : Host :=
  host_with (fun a => Some (a + 0x40)) (fun _ => false) (fun c => (true, c)).
(** The callee lowers the stack pointer by 16 and does not raise it
    again, and overwrites the link register. *)
Definition callee_moves_r1 : Host :=
  host_with (fun a => Some (a + 0x40)) (fun _ => true)
    (fun c => (true, set_lr 0 (set_r 1 (wrap64 (get_r 1 c - 16)) c))).
(** The callee overwrites [r3] and reports failure. *)
Definition callee_clobbers_r3 : Host :=
  host_with (fun a => Some (a + 0x40)) (fun _ => true)
    (fun c => (false, set_r 3 0 c)).

(** A processor after [Setup] and [AddModule(game)]; builtin addresses
    start at the sentinel [0xFFFFFFF0]. *)
Definition booted (host : Host) : Processor :=
  exec (Setup host ;; AddModule game)
    (Processor_new (Some 1%nat) None None 0xFFFFFFF0).

(** A thread whose stack pointer is [0x70000000] and whose link register
    is [0x1234]; every other register holds its own number. *)
Definition thread : ThreadState :=
  {| context :=
       {| r := <[1%nat := 0x70000000]> (Z.of_nat <$> seq 0 32);
          lr := 0x1234 |} |}.

(** A processor whose IRQL cell holds [level]. *)
Definition at_irql (level : Z) : Processor :=
  set_irql level (Processor_new None None None 0xFFFFFFF0).

Definition xk : BuiltinRequest :=
  {| bi_name := "xk"; bi_handler := 7; bi_arg0 := 11; bi_arg1 := 13 |}.

End Fixture.

(** ** Predicates for the further properties *)

(** Every entry sits under its own address, and has a function exactly when
    it is READY. *)
Definition entries_coherent (p : Processor) : Prop :=
  forall a e,
    entry_table_ p !! a = Some e ->
    Entry.address e = a
    /\ (Entry.status e = Entry.STATUS_READY <-> is_Some (Entry.function e)).

(** [p'] has every module of [p] at the same index, with the same name,
    the same virtual members and at least the symbols it had. *)
Definition modules_extend (p p' : Processor) : Prop :=
  forall i md,
    modules_ p !! i = Some md ->
    exists md',
      modules_ p' !! i = Some md'
      /\ name md' = name md
      /\ ContainsAddress md' = ContainsAddress md
      /\ CreateFunction md' = CreateFunction md
      /\ forall a, is_Some (map_ md !! a) -> is_Some (map_ md' !! a).

(** [steps R c]: whenever [c] runs without fault, the states before and
    after are related by [R]. *)
Definition steps {A} (R : Processor -> Processor -> Prop) (c : M A) : Prop :=
  forall p, post c p (fun _ p' => R p p').

(** The first module of a list that contains an address. *)
Definition containing_module (address : Z) (mods : list CpuModule)
    : option nat :=
  fst <$> list_find (fun module => ContainsAddress module address = true) mods.

(** More collaborators and modules for the examples. *)
Module Scenario.

(** Everything initialises, but no stack walker can be created. *)
Definition no_stack_walker : Host :=
  {| FLAGS_cpu := "x64";
     XENIA_HAS_X64_BACKEND := true;
     Backend_Initialize := fun _ => true;
     Frontend_Initialize := true;
     StackWalker_Create := None;
     PPCFrontend_DeclareFunction := fun _ a => Some (a + 0x40);
     PPCFrontend_DefineFunction := fun _ _ _ => true;
     Function_Call := fun _ _ p c => (true, p, c) |}.

(** A second image, mapped low, and one that overlaps [Fixture.game]. *)
Definition low : CpuModule :=
  {| name := "low.xex";
     ContainsAddress := fun a => (0x1000 <=? a) && (a <? 0x2000);
     CreateFunction := GuestFunction;
     map_ := ∅ |}.
Definition overlay : CpuModule :=
  {| name := "overlay.xex";
     ContainsAddress := fun a => (0x82010000 <=? a) && (a <? 0x82020000);
     CreateFunction := GuestFunction;
     map_ := ∅ |}.

(** A fresh processor with memory attached. *)
Definition fresh : Processor :=
  Processor_new (Some 1%nat) None None 0xFFFFFFF0.

(** A processor with a debugger attached, after [Setup] and
    [AddModule(game)]. *)
Definition debugged : Processor :=
  exec (Setup Fixture.good ;; AddModule Fixture.game)
    (Processor_new (Some 1%nat) None (Some 2%nat) 0xFFFFFFF0).

End Scenario.

(** * Properties *)

(** ** Reasoning about computations *)

Lemma bind_Some {A B} (c : M A) (k : A -> M B) p b p' :
  bind c k p = Some (b, p') <->
  exists a p1, c p = Some (a, p1) /\ k a p1 = Some (b, p').
Proof.
  unfold bind. split.
  - destruct (c p) as [[a p1]|] eqn:E; [|discriminate]. intros H. eauto.
  - intros (a & p1 & -> & H). exact H.
Qed.

Lemma bind_run {A B} (c : M A) (k : A -> M B) p a p1 :
  c p = Some (a, p1) -> bind c k p = k a p1.
Proof. unfold bind. intros ->. reflexivity. Qed.

Lemma bind_gets {A B} (f : Processor -> A) (k : A -> M B) p :
  bind (gets f) k p = k (f p) p.
Proof. reflexivity. Qed.

Lemma bind_modify {B} (f : Processor -> Processor) (k : unit -> M B) p :
  bind (modify f) k p = k tt (f p).
Proof. reflexivity. Qed.

Lemma bind_deref_Some {A B} (a : A) (k : A -> M B) p :
  bind (deref (Some a)) k p = k a p.
Proof. reflexivity. Qed.

(** A computation whose result is known ends in the state [exec] names. *)
Lemma run_exec {A} (c : M A) p a :
  fst <$> c p = Some a -> c p = Some (a, exec c p).
Proof.
  unfold exec. destruct (c p) as [[a' p']|]; [|discriminate].
  by intros [= ->].
Qed.

Lemma post_ret {A} (a : A) p (Q : A -> Processor -> Prop) :
  Q a p -> post (ret a) p Q.
Proof. intros H a' p' [= <- <-]. exact H. Qed.

Lemma post_fault {A} p (Q : A -> Processor -> Prop) : post fault p Q.
Proof. intros a p' [=]. Qed.

Lemma post_gets {A} (f : Processor -> A) p (Q : A -> Processor -> Prop) :
  Q (f p) p -> post (gets f) p Q.
Proof. intros H a' p' [= <- <-]. exact H. Qed.

Lemma post_modify f p (Q : unit -> Processor -> Prop) :
  Q tt (f p) -> post (modify f) p Q.
Proof. intros H a' p' [= <- <-]. exact H. Qed.

Lemma post_bind {A B} (c : M A) (k : A -> M B) p
    (Q : B -> Processor -> Prop) :
  post c p (fun a p1 => post (k a) p1 Q) -> post (bind c k) p Q.
Proof.
  intros H b p' Hb. apply bind_Some in Hb as (a & p1 & Hc & Hk).
  exact (H a p1 Hc b p' Hk).
Qed.

Lemma post_deref {A} (o : option A) p (Q : A -> Processor -> Prop) :
  (forall a, o = Some a -> Q a p) -> post (deref o) p Q.
Proof.
  intros H. destruct o as [a|]; [apply post_ret; auto | apply post_fault].
Qed.

Lemma post_assert_true b p (Q : unit -> Processor -> Prop) :
  (b = true -> Q tt p) -> post (assert_true b) p Q.
Proof.
  intros H. destruct b; [apply post_ret; auto | apply post_fault].
Qed.

Lemma post_weaken {A} (c : M A) p (Q Q' : A -> Processor -> Prop) :
  post c p Q' -> (forall a p', Q' a p' -> Q a p') -> post c p Q.
Proof. intros H HQ a p' Hc. apply HQ, (H a p' Hc). Qed.

(** One step of the weakest-precondition calculus. *)
Ltac wp_step :=
  lazymatch goal with
  | |- post (bind _ _) _ _ => apply post_bind
  | |- post (ret _) _ _ => apply post_ret
  | |- post fault _ _ => apply post_fault
  | |- post (gets _) _ _ => apply post_gets
  | |- post (modify _) _ _ => apply post_modify
  | |- post (deref _) _ _ => apply post_deref; intros ? ?
  | |- post (assert_true _) _ _ => apply post_assert_true; intros ?
  | |- post (match ?x with _ => _ end) _ _ => destruct x eqn:?
  end.
Ltac wp := repeat (wp_step; cbn beta).

(** ** The IRQL cell *)

(** C9, as the code has it: both [RaiseIrql] and [LowerIrql] exchange the
    IRQL cell for their argument; [RaiseIrql] returns the value the cell
    held, [LowerIrql] returns nothing. *)
Theorem Irql_exchange (value : Z) (p : Processor) :
  RaiseIrql value p = Some (irql_ p, set_irql value p)
  /\ LowerIrql value p = Some (tt, set_irql value p).
Proof. split; reflexivity. Qed.

(** C9, refuted as stated: whatever one reads off the result of [LowerIrql],
    it is not the previous value of the cell, since two cells that held 1
    and 2 give the same result. *)
Lemma LowerIrql_does_not_return_previous :
  ~ (exists previous : unit -> Z,
       forall old_value p,
         (fun x => previous (fst x)) <$> LowerIrql old_value p
         = Some (irql_ p)).
Proof.
  intros (previous & H).
  pose proof (H 0 (Fixture.at_irql 1)) as H1.
  pose proof (H 0 (Fixture.at_irql 2)) as H2.
  cbn in H1, H2. congruence.
Qed.

(** ** Listing the modules *)

Lemma foldl_push_back {A B} (f : A -> B) (l : list A) (clone : list B) :
  foldl (fun clone x => clone ++ [f x]) clone l = clone ++ (f <$> l).
Proof.
  revert clone. induction l as [|x l IH]; intros clone; cbn.
  - by rewrite app_nil_r.
  - rewrite IH. by rewrite <- app_assoc.
Qed.

(** [GetModules] answers as many null pointers as there are modules,
    followed by the modules. *)
Lemma GetModules_spec (p : Processor) :
  GetModules p =
  Some (replicate (length (modules_ p)) None
          ++ (Some <$> seq 0 (length (modules_ p))), p).
Proof.
  unfold GetModules, bind, gets, ret. by rewrite foldl_push_back.
Qed.

(** C3, the code at the failing input: after [Setup] and one [AddModule]
    the processor has two modules, and [GetModules] answers four pointers,
    the first two of them null. *)
Theorem GetModules_pads_with_null :
  length (modules_ (Fixture.booted Fixture.good)) = 2%nat
  /\ fst <$> GetModules (Fixture.booted Fixture.good)
     = Some [None; None; Some 0%nat; Some 1%nat].
Proof. split; [reflexivity|]. rewrite GetModules_spec. reflexivity. Qed.

(** ** Setup *)

Arguments select_backend : simpl never.

(** Closes one exit of [Setup]: the run is by computation, the conditions
    by the case at hand. *)
Ltac setup_case :=
  eexists _, _; split; [reflexivity|];
  repeat split; intros; try reflexivity;
  repeat match goal with
    | H : _ /\ _ |- _ => destruct H
    | H : exists _, _ |- _ => destruct H
    | H : _ \/ _ |- _ => destruct H
    | H : is_Some None |- _ => destruct H; discriminate
    | H : is_Some (Some _) |- _ => clear H
    end;
  try congruence.

(** C7: the backend is chosen from the option [--cpu] (["x64"]: the x64
    backend, when compiled in; ["any"]: the first backend compiled in; any
    other value: none), and [Setup] answers [true] only if neither a
    frontend nor a backend was there before, a backend was chosen, and the
    backend, the frontend and the stack walker initialised; it answers
    [false] otherwise. *)
Theorem Setup_selects_and_fails (host : Host) (p : Processor) :
  is_Some (memory_ p) ->
  select_backend host =
    (if String.eqb (FLAGS_cpu host) "x64" then
       if XENIA_HAS_X64_BACKEND host then Some X64Backend else None
     else if String.eqb (FLAGS_cpu host) "any" then
       head (available_backends host)
     else None)
  /\ exists result p',
       Setup host p = Some (result, p')
       /\ (is_Some (frontend_ p) \/ is_Some (backend_ p) -> result = false)
       /\ (select_backend host = None -> result = false)
       /\ (forall backend, select_backend host = Some backend ->
             Backend_Initialize host backend = false -> result = false)
       /\ (Frontend_Initialize host = false -> result = false)
       /\ (result = true <->
             frontend_ p = None /\ backend_ p = None
             /\ exists backend, select_backend host = Some backend
                /\ Backend_Initialize host backend = true
                /\ Frontend_Initialize host = true
                /\ is_Some (StackWalker_Create host)).
Proof.
  intros Hmem. split.
  - unfold select_backend, available_backends.
    destruct (String.eqb (FLAGS_cpu host) "x64") eqn:E64.
    + apply String.eqb_eq in E64. rewrite E64. cbn.
      by destruct (XENIA_HAS_X64_BACKEND host).
    + destruct (String.eqb (FLAGS_cpu host) "any"),
        (XENIA_HAS_X64_BACKEND host); reflexivity.
  - unfold Setup, bind, gets, modify, assert_true, ret. cbn.
    rewrite (bool_decide_eq_true_2 _ Hmem). cbn.
    destruct (frontend_ p) as [fe|] eqn:Hfe; cbn; [setup_case|].
    destruct (backend_ p) as [be|] eqn:Hbe; cbn; [setup_case|].
    destruct (select_backend host) as [backend|] eqn:Hsel; [|setup_case].
    destruct (Backend_Initialize host backend) eqn:Hbi; cbn; [|setup_case].
    destruct (Frontend_Initialize host) eqn:Hfi; cbn; [|setup_case].
    destruct (StackWalker_Create host) as [sw|] eqn:Hsw; cbn; setup_case.
    exists backend. repeat split; eauto.
Qed.

Lemma Setup_selects_and_fails_witness :
  let p := Processor_new (Some 1%nat) None None 0xFFFFFFF0 in
  is_Some (memory_ p)
  /\ select_backend Fixture.good = Some X64Backend
  /\ exists p', Setup Fixture.good p = Some (true, p').
Proof.
  intros p.
  assert (Hm : is_Some (memory_ p)) by (cbn; eauto).
  split; [exact Hm|]. split; [reflexivity|].
  destruct (Setup_selects_and_fails Fixture.good p Hm)
    as (_ & result & p' & Hrun & _ & _ & _ & _ & Hiff).
  assert (Hok : result = true).
  { apply Hiff. split; [reflexivity|]. split; [reflexivity|].
    exists X64Backend. repeat split; cbn; eauto. }
  exists p'. rewrite <- Hok. exact Hrun.
Defined.

(** ** Lazy resolution *)

(** Looking a function up and demanding it work on the modules and call the
    frontend; they leave the entry table alone. *)
Lemma LookupFunction_keeps_entry_table host address p :
  post (LookupFunction host address) p
    (fun _ p' => entry_table_ p' = entry_table_ p).
Proof.
  unfold LookupFunction, LookupFunction_in, Module_DeclareFunction,
    Frontend_DeclareFunction, read_function, write_function, read_module.
  wp; reflexivity.
Qed.

Lemma DemandFunction_keeps_entry_table host function p :
  post (DemandFunction host function) p
    (fun _ p' => entry_table_ p' = entry_table_ p).
Proof.
  unfold DemandFunction, Module_DefineFunction, Frontend_DefineFunction,
    read_function, write_function, read_module.
  wp; reflexivity.
Qed.

(** Continue below a call whose effect on the entry table is known. *)
Ltac wp_call L :=
  eapply post_weaken; [apply L | cbn beta; intros ? ? ?].

(** Rewrite with what is known about the entry table of later states. *)
Ltac table_frame :=
  repeat match goal with
    | H : entry_table_ ?q = _ |- context [entry_table_ ?q] => rewrite H
    end.

(** An entry that is READY or FAILED settles the answer: the function of a
    READY entry, nothing for a FAILED one; the processor stays as it is. *)
Lemma ResolveFunction_settled host address p e :
  entry_table_ p !! address = Some e ->
  Entry.status e <> Entry.STATUS_NEW ->
  ResolveFunction host address p =
  Some (match Entry.status e with
        | Entry.STATUS_READY => Entry.function e
        | _ => None
        end, p).
Proof.
  intros He Hs.
  unfold ResolveFunction, EntryTable_GetOrCreate, read_entry, bind, gets, ret.
  rewrite He. destruct (Entry.status e); try done.
  by rewrite He.
Qed.

Lemma ResolveFunction_post host address p :
  post (ResolveFunction host address) p
    (fun x p' =>
       (forall b, b <> address ->
                  entry_table_ p' !! b = entry_table_ p !! b)
       /\ (forall F, x = Some F ->
             exists e, entry_table_ p' !! address = Some e
                       /\ Entry.status e = Entry.STATUS_READY
                       /\ Entry.function e = Some F)).
Proof.
  unfold ResolveFunction, EntryTable_GetOrCreate, write_entry, read_entry.
  wp.
  all: try (wp_call LookupFunction_keeps_entry_table; wp).
  all: try (wp_call DemandFunction_keeps_entry_table; wp).
  all: unfold read_function, read_module; wp.
  all: cbn in *; split;
    [ intros b Hb; rewrite ?lookup_insert_ne by done; table_frame;
      rewrite ?lookup_insert_ne by done; reflexivity
    | intros F HF; try discriminate ].
  all: simplify_map_eq; eauto.
Qed.

Lemma QueryFunction_entry address p e :
  entry_table_ p !! address = Some e ->
  QueryFunction address p = Some (Entry.function e, p).
Proof.
  intros He. unfold QueryFunction, EntryTable_Get, bind, gets, ret.
  by rewrite He.
Qed.

(** The calls that do not resolve leave the entry table alone. *)
Lemma DefineBuiltin_keeps_entry_table name' handler arg0 arg1 p :
  post (DefineBuiltin name' handler arg0 arg1) p
    (fun _ p' => entry_table_ p' = entry_table_ p).
Proof.
  unfold DefineBuiltin, Module_DeclareFunction, write_function, read_module.
  wp; reflexivity.
Qed.

Lemma Setup_keeps_entry_table host p :
  post (Setup host) p (fun _ p' => entry_table_ p' = entry_table_ p).
Proof. unfold Setup. wp; reflexivity. Qed.

(** One call writes no entry but the one of the address it resolves. *)
Lemma serve1_frame host request p :
  post (serve1 host request) p
    (fun _ p' =>
       forall b, request <> Resolve b ->
                 entry_table_ p' !! b = entry_table_ p !! b).
Proof.
  destruct request as [a|a|b|m|]; cbn [serve1].
  - apply post_bind.
    eapply post_weaken; [apply ResolveFunction_post|]. cbn beta.
    intros x p' [Hframe _]. wp. intros b Hb. apply Hframe. congruence.
  - unfold QueryFunction, EntryTable_Get. wp; reflexivity.
  - apply post_bind.
    eapply post_weaken; [apply DefineBuiltin_keeps_entry_table|]. cbn beta.
    intros x p' Hkeep. wp. intros b' _. by rewrite Hkeep.
  - unfold AddModule. wp. reflexivity.
  - apply post_bind.
    eapply post_weaken; [apply Setup_keeps_entry_table|]. cbn beta.
    intros x p' Hkeep. wp. intros b' _. by rewrite Hkeep.
Qed.

(** Serving requests never touches an entry that is READY or FAILED. *)
Lemma serve_keeps_settled host requests :
  forall p address e,
    entry_table_ p !! address = Some e ->
    Entry.status e <> Entry.STATUS_NEW ->
    post (serve host requests) p
      (fun _ p' => entry_table_ p' !! address = Some e).
Proof.
  induction requests as [|request rest IH]; intros p address e He Hs;
    cbn [serve].
  - wp. exact He.
  - apply post_bind. intros x p1 Hx. apply post_bind.
    eapply post_weaken; [apply (IH p1 address e); [|exact Hs]|].
    + assert (Hcase : request = Resolve address
                      \/ request <> Resolve address).
      { destruct request as [b| | | |]; try (right; discriminate).
        destruct (decide (b = address)) as [->|Hne]; [by left|].
        right. congruence. }
      destruct Hcase as [->|Hne].
      * cbn [serve1] in Hx.
        rewrite (bind_run _ _ _ _ _ (ResolveFunction_settled _ _ _ _ He Hs))
          in Hx.
        by injection Hx as _ <-.
      * rewrite (serve1_frame _ _ _ _ _ Hx) by done. exact He.
    + cbn beta. intros xs p2 He2. wp. exact He2.
Qed.

(** When the lookup step gives no function, [ResolveFunction] returns at
    once: the entry it created stays as [GetOrCreate] made it. *)
Lemma ResolveFunction_lookup_failure host address p p1 :
  entry_table_ p !! address = None ->
  let fresh := {| Entry.address := address; Entry.end_address := 0;
                  Entry.status := Entry.STATUS_NEW;
                  Entry.function := None |} in
  LookupFunction host address (set_entry_table (<[address := fresh]>) p)
    = Some (None, p1) ->
  ResolveFunction host address p = Some (None, p1)
  /\ entry_table_ p1 !! address = Some fresh.
Proof.
  intros Hnone fresh Hlookup. split.
  - unfold ResolveFunction, EntryTable_GetOrCreate, bind, gets, modify, ret.
    rewrite Hnone. fold fresh. by rewrite Hlookup.
  - rewrite (LookupFunction_keeps_entry_table _ _ _ _ _ Hlookup). cbn.
    by rewrite lookup_insert_eq.
Qed.

(** When the function cannot be demanded, the entry is marked FAILED. *)
Lemma ResolveFunction_demand_failure host address p function p1 p2 :
  entry_table_ p !! address = None ->
  let fresh := {| Entry.address := address; Entry.end_address := 0;
                  Entry.status := Entry.STATUS_NEW;
                  Entry.function := None |} in
  LookupFunction host address (set_entry_table (<[address := fresh]>) p)
    = Some (Some function, p1) ->
  DemandFunction host function p1 = Some (false, p2) ->
  exists p', ResolveFunction host address p = Some (None, p')
    /\ entry_table_ p' !! address
       = Some (Entry.set_status Entry.STATUS_FAILED fresh)
    /\ frontend_calls p' = frontend_calls p2.
Proof.
  intros Hnone fresh Hlookup Hdemand.
  pose proof (LookupFunction_keeps_entry_table _ _ _ _ _ Hlookup) as H1.
  pose proof (DemandFunction_keeps_entry_table _ _ _ _ _ Hdemand) as H2.
  cbn in H1.
  assert (He : entry_table_ p2 !! address = Some fresh).
  { rewrite H2, H1. by rewrite lookup_insert_eq. }
  eexists. split; [|split].
  - unfold ResolveFunction, EntryTable_GetOrCreate, bind, gets, modify, ret.
    rewrite Hnone. fold fresh. rewrite Hlookup, Hdemand. cbn.
    unfold write_entry, read_entry, bind, gets, deref, modify, ret.
    rewrite He. reflexivity.
  - cbn. by rewrite lookup_insert_eq.
  - reflexivity.
Qed.

(** C1, the code at the failing input: the game module contains
    [0x82010000] and the frontend fails to declare the function there.
    [ResolveFunction] returns no function; the frontend was asked once, the
    symbol is FAILED, and the entry is still NEW, not FAILED. *)
Theorem ResolveFunction_declare_failure_leaves_entry_NEW :
  let p := Fixture.booted Fixture.declare_fails in
  let p' := exec (ResolveFunction Fixture.declare_fails 0x82010000) p in
  fst <$> ResolveFunction Fixture.declare_fails 0x82010000 p = Some None
  /\ frontend_calls p' = [FeDeclare 0x82010000]
  /\ Function.status <$>
       symbol_at {| fn_module := 1; fn_address := 0x82010000 |} p'
     = Some Symbol.kFailed
  /\ Entry.status <$> entry_table_ p' !! 0x82010000
     = Some Entry.STATUS_NEW.
Proof. repeat split; vm_compute; reflexivity. Qed.

(** C4: once the entry of an address is FAILED, [ResolveFunction] for the
    address returns no function and leaves the processor as it is (so the
    frontend is not called and the entry stays FAILED), also after any
    number of further calls of [ResolveFunction], [QueryFunction],
    [DefineBuiltin], [AddModule] and [Setup], for any addresses. *)
Theorem ResolveFunction_FAILED_is_permanent host address p e :
  entry_table_ p !! address = Some e ->
  Entry.status e = Entry.STATUS_FAILED ->
  ResolveFunction host address p = Some (None, p)
  /\ forall requests xs p',
       serve host requests p = Some (xs, p') ->
       entry_table_ p' !! address = Some e
       /\ ResolveFunction host address p' = Some (None, p').
Proof.
  intros He Hs.
  assert (Hnew : Entry.status e <> Entry.STATUS_NEW) by (rewrite Hs; done).
  assert (Hstuck : forall q, entry_table_ q !! address = Some e ->
                     ResolveFunction host address q = Some (None, q)).
  { intros q Hq. rewrite (ResolveFunction_settled _ _ _ _ Hq Hnew).
    by rewrite Hs. }
  split; [by apply Hstuck|].
  intros requests xs p' Hserve.
  pose proof (serve_keeps_settled host requests p address e He Hnew
                xs p' Hserve) as He'.
  split; [exact He'|by apply Hstuck].
Qed.

(** The state after the frontend failed to define [0x82010000]. *)
Lemma ResolveFunction_FAILED_is_permanent_witness :
  let host := Fixture.define_fails in
  let p := exec (ResolveFunction host 0x82010000) (Fixture.booted host) in
  frontend_calls p = [FeDeclare 0x82010000; FeDefine 0x82010000 0]
  /\ ResolveFunction host 0x82010000 p = Some (None, p)
  /\ forall requests xs p',
       serve host requests p = Some (xs, p') ->
       Entry.status <$> entry_table_ p' !! 0x82010000
         = Some Entry.STATUS_FAILED
       /\ ResolveFunction host 0x82010000 p' = Some (None, p').
Proof.
  intros host p.
  destruct (ResolveFunction_FAILED_is_permanent host 0x82010000 p
              {| Entry.address := 0x82010000; Entry.end_address := 0;
                 Entry.status := Entry.STATUS_FAILED;
                 Entry.function := None |})
    as [Hnow Hlater]; [vm_compute; reflexivity | reflexivity |].
  split; [vm_compute; reflexivity|]. split; [exact Hnow|].
  intros requests xs p' Hserve.
  destruct (Hlater requests xs p' Hserve) as [He Hr].
  split; [by rewrite He | exact Hr].
Defined.

(** C5: once [ResolveFunction] has returned a function for an address,
    every later [ResolveFunction] and [QueryFunction] for the address, also
    after calls of [ResolveFunction], [QueryFunction], [DefineBuiltin],
    [AddModule] and [Setup] for any addresses, returns the same function
    and leaves the processor as it is: the frontend is not called and the
    entry table is not written. *)
Theorem ResolveFunction_READY_is_idempotent host address p F p1 :
  ResolveFunction host address p = Some (Some F, p1) ->
  forall requests xs p',
    serve host requests p1 = Some (xs, p') ->
    ResolveFunction host address p' = Some (Some F, p')
    /\ QueryFunction address p' = Some (Some F, p').
Proof.
  intros Hfirst requests xs p' Hserve.
  destruct (ResolveFunction_post _ _ _ _ _ Hfirst) as [_ Hready].
  destruct (Hready F eq_refl) as (e & He & Hs & Hf).
  assert (Hnew : Entry.status e <> Entry.STATUS_NEW) by (rewrite Hs; done).
  pose proof (serve_keeps_settled host requests p1 address e He Hnew
                xs p' Hserve) as He'.
  split.
  - rewrite (ResolveFunction_settled _ _ _ _ He' Hnew). by rewrite Hs, Hf.
  - rewrite (QueryFunction_entry _ _ _ He'). by rewrite Hf.
Qed.

Lemma ResolveFunction_READY_is_idempotent_witness :
  let host := Fixture.good in
  let F := {| fn_module := 1; fn_address := 0x82010000 |} in
  let p1 := exec (ResolveFunction host 0x82010000) (Fixture.booted host) in
  let p' := exec (serve host [Resolve 0x82010000; Query 0x82010000;
                              Resolve 0x82010040; Define Fixture.xk]) p1 in
  ResolveFunction host 0x82010000 (Fixture.booted host) = Some (Some F, p1)
  /\ ResolveFunction host 0x82010000 p' = Some (Some F, p')
  /\ QueryFunction 0x82010000 p' = Some (Some F, p').
Proof.
  intros host F p1 p'.
  assert (Hfirst : ResolveFunction host 0x82010000 (Fixture.booted host)
                   = Some (Some F, p1)).
  { apply (run_exec (ResolveFunction host 0x82010000)
             (Fixture.booted host) (Some F)).
    vm_compute; reflexivity. }
  split; [exact Hfirst|].
  apply (ResolveFunction_READY_is_idempotent host 0x82010000
           (Fixture.booted host) F p1 Hfirst
           [Resolve 0x82010000; Query 0x82010000; Resolve 0x82010040;
            Define Fixture.xk]
           [Found (Some F); Found (Some F);
            Found (Some {| fn_module := 1; fn_address := 0x82010040 |});
            Found (Some {| fn_module := 0; fn_address := 0xFFFFFFF0 |})] p').
  apply (run_exec
           (serve host [Resolve 0x82010000; Query 0x82010000;
                        Resolve 0x82010040; Define Fixture.xk]) p1).
  vm_compute; reflexivity.
Defined.

(** ** The guest-call entry sequence *)

Arguments wrap32 : simpl never.
Arguments wrap64 : simpl never.

Lemma wrap64_rebalance (x k : Z) :
  0 <= x < 2 ^ 64 -> wrap64 (wrap64 (x - k) + k) = x.
Proof.
  intros Hx. unfold wrap64. rewrite Z.add_mod_idemp_l by lia.
  replace (x - k + k) with x by lia. by apply Z.mod_small.
Qed.

Lemma wf_context_get_r c i :
  wf_context c -> (i < 32)%nat -> 0 <= get_r i c < 2 ^ 64.
Proof.
  intros (Hlen & Hall & _) Hi. unfold get_r.
  destruct (lookup_lt_is_Some_2 (r c) i) as [v Hv]; [lia|].
  rewrite (list_lookup_total_correct _ _ _ Hv).
  by apply (proj1 (Forall_lookup _ _) Hall i v).
Qed.

(** The marshalling loop: [n] iterations from index [i] write [args[i..]]
    into [r[3+i..]] and nothing else. *)
Lemma marshal_args_spec args n :
  forall i ctx,
    (i + n <= length args)%nat ->
    exists ctx',
      marshal_args args i n ctx = Some ctx'
      /\ lr ctx' = lr ctx
      /\ length (r ctx') = length (r ctx)
      /\ (forall j, (j < 3 + i \/ 3 + i + n <= j)%nat ->
                    r ctx' !! j = r ctx !! j)
      /\ (forall k, (k < n)%nat -> (3 + i + k < length (r ctx))%nat ->
                    r ctx' !! (3 + i + k)%nat = args !! (i + k)%nat).
Proof.
  induction n as [|n IH]; intros i ctx Hlen; cbn [marshal_args].
  - exists ctx. split; [reflexivity|]. repeat split; intros; lia.
  - destruct (lookup_lt_is_Some_2 args i) as [v Hv]; [lia|]. rewrite Hv.
    destruct (IH (S i) (set_r (3 + i) v ctx)) as
      (ctx' & Hrun & Hlr & Hlen' & Hout & Hin); [lia|].
    exists ctx'. split; [exact Hrun|]. cbn in Hlr, Hlen', Hout, Hin.
    rewrite length_insert in Hlen', Hin.
    repeat split; [done | done | |].
    + intros j Hj. rewrite Hout by lia.
      apply list_lookup_insert_ne. lia.
    + intros [|k] Hk Hk'.
      * rewrite Hout by lia. rewrite !Nat.add_0_r, Hv.
        apply list_lookup_insert_eq. lia.
      * replace (3 + i + S k)%nat with (3 + S i + k)%nat by lia.
        replace (i + S k)%nat with (S i + k)%nat by lia.
        apply Hin; lia.
Qed.

Lemma Execute_resolution_failure host ts address p p1 :
  ResolveFunction host address p = Some (None, p1) ->
  Execute host ts address p = Some ((false, ts), p1).
Proof. intros H. unfold Execute. by rewrite (bind_run _ _ _ _ _ H). Qed.

Lemma Execute_call host ts address p function p1 :
  ResolveFunction host address p = Some (Some function, p1) ->
  Execute host ts address p =
  let out := Function_Call host function 0xBCBCBCBC p1
               (entry_context (context ts)) in
  Some ((out.1.1, {| context := exit_context (lr (context ts)) out.2 |}),
        out.1.2).
Proof.
  intros H. unfold Execute. rewrite (bind_run _ _ _ _ _ H).
  unfold Call, bind, ret. cbn [lr set_lr set_r].
  change (wrap32 0xBCBCBCBC) with 0xBCBCBCBC.
  fold (entry_context (context ts)).
  destruct (Function_Call host function 0xBCBCBCBC p1
              (entry_context (context ts))) as [[b p2] out].
  reflexivity.
Qed.

Lemma get_r_entry_context ctx :
  (1 < length (r ctx))%nat ->
  get_r 1 (entry_context ctx) = wrap64 (get_r 1 ctx - 176).
Proof.
  intros H. unfold entry_context, get_r; cbn.
  by rewrite list_lookup_total_insert_eq.
Qed.

Lemma get_r_exit_context previous_lr out :
  (1 < length (r out))%nat ->
  get_r 1 (exit_context previous_lr out) = wrap64 (get_r 1 out + 176).
Proof.
  intros H. unfold exit_context, get_r; cbn.
  by rewrite list_lookup_total_insert_eq.
Qed.

(** The adapter touches [r1] and [lr] only. *)
Lemma lookup_exit_context previous_lr out (i : nat) :
  i <> 1%nat -> r (exit_context previous_lr out) !! i = r out !! i.
Proof.
  intros H. unfold exit_context; cbn. by rewrite list_lookup_insert_ne.
Qed.

Lemma lookup_entry_context ctx (i : nat) :
  i <> 1%nat -> r (entry_context ctx) !! i = r ctx !! i.
Proof.
  intros H. unfold entry_context; cbn. by rewrite list_lookup_insert_ne.
Qed.

(** The value form is the marshalling loop, then the scalar form, then the
    choice between the sentinel and [r3]. *)
Lemma Execute_args_run host ts address args n p ctx1 :
  (n <= 5)%nat ->
  marshal_args args 0 n (context ts) = Some ctx1 ->
  Execute_args host ts address args n p =
  match Execute host {| context := ctx1 |} address p with
  | Some ((ok, ts'), p') =>
      Some ((if ok then get_r 3 (context ts') else 0xDEADBABE, ts'), p')
  | None => None
  end.
Proof.
  intros Hn Hm. unfold Execute_args, bind, assert_true, deref, ret.
  rewrite (bool_decide_eq_true_2 _ Hn), Hm.
  destruct (Execute host {| context := ctx1 |} address p)
    as [[[[] ts'] p']|]; reflexivity.
Qed.

(** The scalar form on a register file of full size. *)
Lemma Execute_frame host ts address p function p1 :
  length (r (context ts)) = 32%nat ->
  0 <= get_r 1 (context ts) < 2 ^ 64 ->
  (forall f ra q c,
     length (r (Function_Call host f ra q c).2) = length (r c)) ->
  ResolveFunction host address p = Some (function, p1) ->
  exists result ts' p',
    Execute host ts address p = Some ((result, ts'), p')
    /\ adapter_frame host function p1 (context ts) (context ts').
Proof.
  intros Hlen Hr1 Hcall Hres. unfold adapter_frame.
  destruct function as [f|].
  - rewrite (Execute_call _ _ _ _ _ _ Hres). cbn zeta.
    set (ctx_in := entry_context (context ts)).
    set (out := Function_Call host f 0xBCBCBCBC p1 ctx_in).
    assert (Hin : get_r 1 ctx_in = wrap64 (get_r 1 (context ts) - 176))
      by (apply get_r_entry_context; lia).
    assert (Hout : get_r 1 (exit_context (lr (context ts)) out.2)
                   = wrap64 (get_r 1 out.2 + 176)).
    { apply get_r_exit_context. unfold out. rewrite Hcall.
      unfold ctx_in, entry_context; cbn. rewrite length_insert. lia. }
    eexists _, _, _. split; [reflexivity|]. cbn [context].
    repeat split; try done.
    intros Hsame. rewrite Hout, Hsame, Hin.
    by apply wrap64_rebalance.
  - rewrite (Execute_resolution_failure _ _ _ _ _ Hres).
    by eexists _, _, _.
Qed.

(** C2, as the code has it.  Whenever resolution ends, both forms of
    [Execute] return, and [lr] then holds its value from before the call,
    whatever the callee did to it.  If no function was resolved, [r1] is
    untouched.  Otherwise the callee is entered with [lr = 0xBCBCBCBC] and
    [r1] lowered by 176, and on return [r1] is what the callee left in it
    plus 176: the value from before the call exactly when the callee hands
    [r1] back as it got it.  ([adapter_frame] spells this out.) *)
Theorem Execute_restores_lr_and_rebalances_r1
    host ts address args n p function p1 :
  wf_context (context ts) ->
  (forall f ra q c,
     length (r (Function_Call host f ra q c).2) = length (r c)) ->
  (n <= 5)%nat -> (n <= length args)%nat ->
  ResolveFunction host address p = Some (function, p1) ->
  (exists result ts' p',
     Execute host ts address p = Some ((result, ts'), p')
     /\ adapter_frame host function p1 (context ts) (context ts'))
  /\ (exists ctx1 value ts' p',
        marshal_args args 0 n (context ts) = Some ctx1
        /\ lr ctx1 = lr (context ts)
        /\ get_r 1 ctx1 = get_r 1 (context ts)
        /\ Execute_args host ts address args n p = Some ((value, ts'), p')
        /\ adapter_frame host function p1 ctx1 (context ts')).
Proof.
  intros Hwf Hcall Hn Hargs Hres.
  assert (Hlen : length (r (context ts)) = 32%nat) by apply Hwf.
  assert (Hr1 : 0 <= get_r 1 (context ts) < 2 ^ 64)
    by (apply wf_context_get_r; [done | lia]).
  split; [by apply Execute_frame|].
  destruct (marshal_args_spec args n 0 (context ts))
    as (ctx1 & Hrun & Hlr & Hlen1 & Hout & _); [lia|].
  assert (Hsame : get_r 1 ctx1 = get_r 1 (context ts)).
  { unfold get_r. rewrite !list_lookup_total_alt, Hout by lia. done. }
  destruct (Execute_frame host {| context := ctx1 |} address p function p1)
    as (result & ts' & p' & Hexec & Hframe); cbn [context];
    [lia | by rewrite Hsame | done | done |].
  exists ctx1. rewrite (Execute_args_run _ _ _ _ _ _ _ Hn Hrun), Hexec.
  eexists _, ts', p'.
  split; [exact Hrun|]. split; [exact Hlr|]. split; [exact Hsame|].
  split; [reflexivity | exact Hframe].
Qed.

Lemma wf_context_thread : wf_context (context Fixture.thread).
Proof.
  split; [reflexivity|]. split.
  - cbn. repeat constructor; lia.
  - cbn. lia.
Qed.

Lemma Execute_restores_lr_and_rebalances_r1_witness :
  let host := Fixture.good in
  let p := Fixture.booted host in
  (exists result ts' p',
     Execute host Fixture.thread 0x82010000 p = Some ((result, ts'), p')
     /\ lr (context ts') = 0x1234
     /\ get_r 1 (context ts') = 0x70000000)
  /\ (exists value ts' p',
        Execute_args host Fixture.thread 0x82010000 [100; 200] 2 p
        = Some ((value, ts'), p')
        /\ lr (context ts') = 0x1234
        /\ get_r 1 (context ts') = 0x70000000).
Proof.
  intros host p.
  destruct (Execute_restores_lr_and_rebalances_r1 host Fixture.thread
              0x82010000 [100; 200] 2 p
              (Some {| fn_module := 1; fn_address := 0x82010000 |})
              (exec (ResolveFunction host 0x82010000) p))
    as [(result & ts' & p' & Hrun & Hlr & Hrest)
        (ctx1 & value & ts2 & p2 & _ & Hlr1 & Hr1 & Hrun2 & Hlr2 & Hrest2)].
  - exact wf_context_thread.
  - intros f ra q c. reflexivity.
  - lia.
  - cbn; lia.
  - apply (run_exec (ResolveFunction host 0x82010000) p).
    vm_compute; reflexivity.
  - split.
    + exists result, ts', p'. split; [exact Hrun|]. split; [exact Hlr|].
      cbn zeta in Hrest. destruct Hrest as (_ & _ & _ & Hsame).
      apply Hsame. reflexivity.
    + exists value, ts2, p2. split; [exact Hrun2|].
      split; [by rewrite Hlr2, Hlr1|].
      cbn zeta in Hrest2. destruct Hrest2 as (_ & _ & _ & Hsame).
      rewrite Hsame; [exact Hr1 | reflexivity].
Defined.

(** C2, refuted as stated: the callee lowers [r1] by 16 and overwrites
    [lr].  After [Execute], [lr] is back at [0x1234], but [r1] is
    [0x6FFFFFF0], not the [0x70000000] from before the call. *)
Lemma Execute_does_not_restore_r1 :
  let host := Fixture.callee_moves_r1 in
  wf_context (context Fixture.thread)
  /\ exists result ts' p',
       Execute host Fixture.thread 0x82010000 (Fixture.booted host)
       = Some ((result, ts'), p')
       /\ lr (context ts') = lr (context Fixture.thread)
       /\ get_r 1 (context Fixture.thread) = 0x70000000
       /\ get_r 1 (context ts') = 0x6FFFFFF0
       /\ get_r 1 (context ts') <> get_r 1 (context Fixture.thread).
Proof.
  intros host. split; [exact wf_context_thread|].
  assert (Hr1 : (fun x => get_r 1 (context x.1.2)) <$>
                  Execute host Fixture.thread 0x82010000 (Fixture.booted host)
                = Some 0x6FFFFFF0) by (vm_compute; reflexivity).
  assert (Hlr : (fun x => lr (context x.1.2)) <$>
                  Execute host Fixture.thread 0x82010000 (Fixture.booted host)
                = Some 0x1234) by (vm_compute; reflexivity).
  destruct (Execute host Fixture.thread 0x82010000 (Fixture.booted host))
    as [[[result ts'] p']|]; [|discriminate].
  cbn in Hr1, Hlr. injection Hr1 as Hr1. injection Hlr as Hlr.
  exists result, ts', p'. split; [reflexivity|].
  split; [exact Hlr|]. split; [reflexivity|]. split; [exact Hr1|].
  rewrite Hr1. discriminate.
Qed.

(** C6: given at most five arguments, the value form of [Execute] writes
    argument [i] into [r(3+i)] and leaves the other registers and [lr] as
    they are, then runs the scalar form on that context; it returns
    [0xDEADBABE] if the scalar form answers [false], and the [r3] of the
    context the scalar form hands back if it answers [true]. *)
Theorem Execute_args_marshals_and_returns_r3 host ts address args n p :
  (n <= 5)%nat -> (n <= length args)%nat ->
  length (r (context ts)) = 32%nat ->
  exists ctx1,
    marshal_args args 0 n (context ts) = Some ctx1
    /\ (forall i, (i < n)%nat -> r ctx1 !! (3 + i)%nat = args !! i)
    /\ (forall j, (j < 3 \/ 3 + n <= j)%nat ->
                  r ctx1 !! j = r (context ts) !! j)
    /\ lr ctx1 = lr (context ts)
    /\ Execute_args host ts address args n p =
       match Execute host {| context := ctx1 |} address p with
       | Some ((true, ts'), p') => Some ((get_r 3 (context ts'), ts'), p')
       | Some ((false, ts'), p') => Some ((0xDEADBABE, ts'), p')
       | None => None
       end.
Proof.
  intros Hn Hargs Hlen.
  destruct (marshal_args_spec args n 0 (context ts))
    as (ctx1 & Hrun & Hlr & _ & Hout & Hin); [lia|].
  exists ctx1. split; [exact Hrun|].
  split; [|split; [|split]].
  - intros i Hi. apply (Hin i Hi). lia.
  - intros j Hj. apply Hout. lia.
  - exact Hlr.
  - rewrite (Execute_args_run _ _ _ _ _ _ _ Hn Hrun).
    destruct (Execute host {| context := ctx1 |} address p)
      as [[[[] ts'] p']|]; reflexivity.
Qed.

Lemma Execute_args_marshals_and_returns_r3_witness :
  let host := Fixture.good in
  let p := Fixture.booted host in
  (2 <= 5)%nat
  /\ fst <$> (fst <$> Execute_args host Fixture.thread 0x82010000
                        [100; 200] 2 p) = Some 100
  /\ fst <$> (fst <$> Execute_args host Fixture.thread 0x1000
                        [100; 200] 2 p) = Some 0xDEADBABE
  /\ exists ctx1,
       marshal_args [100; 200] 0 2 (context Fixture.thread) = Some ctx1
       /\ (forall i, (i < 2)%nat -> r ctx1 !! (3 + i)%nat = [100; 200] !! i).
Proof.
  intros host p. split; [lia|].
  split; [vm_compute; reflexivity|]. split; [vm_compute; reflexivity|].
  destruct (Execute_args_marshals_and_returns_r3 host Fixture.thread
              0x82010000 [100; 200] 2 p)
    as (ctx1 & Hrun & Hin & _); [lia | cbn; lia | reflexivity |].
  exists ctx1. split; [exact Hrun | exact Hin].
Defined.

(** C10, as the code has it.  The arguments are marshalled before the
    function is resolved and [Execute] never writes [r3..r7] again.  When
    resolution fails, the sentinel is returned and [r(3+i)] holds argument
    [i].  When a function was resolved, the callee is entered with argument
    [i] in [r(3+i)]; if the call then fails, the sentinel is returned and
    [r(3+i)] holds what the callee left there. *)
Theorem Execute_args_failure_leaves_registers
    host ts address args n p function p1 :
  (n <= 5)%nat -> (n <= length args)%nat ->
  length (r (context ts)) = 32%nat ->
  ResolveFunction host address p = Some (function, p1) ->
  exists ctx1,
    marshal_args args 0 n (context ts) = Some ctx1
    /\ match function with
       | None =>
           Execute_args host ts address args n p
           = Some ((0xDEADBABE, {| context := ctx1 |}), p1)
           /\ forall i, (i < n)%nat -> r ctx1 !! (3 + i)%nat = args !! i
       | Some f =>
           let ctx_in := entry_context ctx1 in
           let out := Function_Call host f 0xBCBCBCBC p1 ctx_in in
           (forall i, (i < n)%nat -> r ctx_in !! (3 + i)%nat = args !! i)
           /\ (out.1.1 = false ->
               exists ts',
                 Execute_args host ts address args n p
                 = Some ((0xDEADBABE, ts'), out.1.2)
                 /\ forall i, (i < n)%nat ->
                      r (context ts') !! (3 + i)%nat = r out.2 !! (3 + i)%nat)
       end.
Proof.
  intros Hn Hargs Hlen Hres.
  destruct (marshal_args_spec args n 0 (context ts))
    as (ctx1 & Hrun & Hlr & _ & Hout & Hin); [lia|].
  exists ctx1. split; [exact Hrun|].
  rewrite (Execute_args_run _ _ _ _ _ _ _ Hn Hrun).
  destruct function as [f|].
  - rewrite (Execute_call _ _ _ _ _ _ Hres). cbn zeta. cbn [context].
    split.
    + intros i Hi. rewrite lookup_entry_context by lia.
      apply (Hin i Hi). lia.
    + intros Hfail. rewrite Hfail. eexists. split; [reflexivity|].
      intros i Hi. cbn [context]. apply lookup_exit_context. lia.
  - rewrite (Execute_resolution_failure _ _ _ _ _ Hres).
    split; [reflexivity|].
    intros i Hi. apply (Hin i Hi). lia.
Qed.

(** No module contains [0x1000]: resolution fails. *)
Lemma Execute_args_failure_leaves_registers_witness :
  let host := Fixture.good in
  let p := Fixture.booted host in
  exists ctx1,
    Execute_args host Fixture.thread 0x1000 [100; 200] 2 p
    = Some ((0xDEADBABE, {| context := ctx1 |}),
            exec (ResolveFunction host 0x1000) p)
    /\ forall i, (i < 2)%nat -> r ctx1 !! (3 + i)%nat = [100; 200] !! i.
Proof.
  intros host p.
  destruct (Execute_args_failure_leaves_registers host Fixture.thread
              0x1000 [100; 200] 2 p None
              (exec (ResolveFunction host 0x1000) p))
    as (ctx1 & _ & Hrun & Hregs).
  - lia.
  - cbn; lia.
  - reflexivity.
  - apply (run_exec (ResolveFunction host 0x1000) p).
    vm_compute; reflexivity.
  - exists ctx1. split; [exact Hrun | exact Hregs].
Defined.

(** C10, refuted as stated: the callee overwrites [r3] with 0 and fails.
    The value form returns the sentinel, and [r3] holds 0, not the
    marshalled argument 100. *)
Lemma Execute_args_call_failure_loses_argument :
  let host := Fixture.callee_clobbers_r3 in
  exists ts' p',
    Execute_args host Fixture.thread 0x82010000 [100; 200] 2
      (Fixture.booted host)
    = Some ((0xDEADBABE, ts'), p')
    /\ r (context ts') !! 3%nat = Some 0
    /\ r (context ts') !! 3%nat <> [100; 200] !! 0%nat.
Proof.
  intros host.
  assert (H : (fun x => (x.1.1, r (context x.1.2) !! 3%nat)) <$>
                Execute_args host Fixture.thread 0x82010000 [100; 200] 2
                  (Fixture.booted host)
              = Some (0xDEADBABE, Some 0)) by (vm_compute; reflexivity).
  destruct (Execute_args host Fixture.thread 0x82010000 [100; 200] 2
              (Fixture.booted host)) as [[[v ts'] p']|]; [|discriminate].
  cbn in H. injection H as -> Hr3.
  exists ts', p'. split; [reflexivity|]. split; [exact Hr3|].
  rewrite Hr3. discriminate.
Qed.

(** ** Builtin functions *)

Lemma write_function_run m a g p md fn :
  modules_ p !! m = Some md ->
  map_ md !! a = Some fn ->
  write_function {| fn_module := m; fn_address := a |} g p
  = Some (tt, set_modules (<[m := with_map (<[a := g fn]>) md]>) p).
Proof.
  intros Hm Ha.
  unfold write_function, read_module, bind, gets, deref, ret, modify; cbn.
  by rewrite Hm, Ha.
Qed.

(** One write to a symbol, observed: the symbol changes, its neighbours in
    the module and the builtin bookkeeping do not. *)
Lemma write_function_obs m a g p md fn :
  modules_ p !! m = Some md ->
  map_ md !! a = Some fn ->
  exists p' md',
    write_function {| fn_module := m; fn_address := a |} g p = Some (tt, p')
    /\ modules_ p' !! m = Some md'
    /\ map_ md' !! a = Some (g fn)
    /\ (forall a', a' <> a -> map_ md' !! a' = map_ md !! a')
    /\ builtin_module_ p' = builtin_module_ p
    /\ next_builtin_address_ p' = next_builtin_address_ p.
Proof.
  intros Hm Ha. eexists _, _.
  split; [by apply write_function_run|]. cbn.
  split; [apply list_lookup_insert_eq; by eapply lookup_lt_Some|].
  split; [apply lookup_insert_eq|].
  split; [|done]. intros a' Hne. by apply lookup_insert_ne.
Qed.

Lemma Module_DeclareFunction_obs m a p md :
  modules_ p !! m = Some md ->
  exists st p' md' fn,
    Module_DeclareFunction m a p
    = Some ((st, {| fn_module := m; fn_address := a |}), p')
    /\ modules_ p' !! m = Some md'
    /\ map_ md' !! a = Some fn
    /\ (forall a', a' <> a -> map_ md' !! a' = map_ md !! a')
    /\ builtin_module_ p' = builtin_module_ p
    /\ next_builtin_address_ p' = next_builtin_address_ p.
Proof.
  intros Hm.
  unfold Module_DeclareFunction, read_module, bind, gets, deref, ret, modify.
  rewrite Hm. destruct (map_ md !! a) as [fn|] eqn:Ha.
  - by eexists _, _, _, _.
  - eexists _, _, _, _. split; [reflexivity|]. cbn.
    split; [apply list_lookup_insert_eq; by eapply lookup_lt_Some|].
    split; [apply lookup_insert_eq|].
    split; [|done]. intros a' Hne. by apply lookup_insert_ne.
Qed.

Lemma DefineBuiltin_run name' handler arg0 arg1 p bm md :
  builtin_module_ p = Some bm ->
  modules_ p !! bm = Some md ->
  let address := next_builtin_address_ p in
  exists p' md' fn,
    DefineBuiltin name' handler arg0 arg1 p
    = Some ({| fn_module := bm; fn_address := address |}, p')
    /\ builtin_module_ p' = Some bm
    /\ next_builtin_address_ p' = wrap32 (address + 4)
    /\ modules_ p' !! bm = Some md'
    /\ map_ md' !! address = Some fn
    /\ (forall a, a <> address -> map_ md' !! a = map_ md !! a)
    /\ Function.end_address fn = wrap32 (address + 4)
    /\ Function.status fn = Symbol.kDeclared
    /\ Function.name fn = name'
    /\ Function.builtin fn
       = Some {| Function.handler := handler; Function.arg0 := arg0;
                 Function.arg1 := arg1 |}.
Proof.
  intros Hbm Hmd address.
  destruct (Module_DeclareFunction_obs bm address
              (set_next_builtin_address (wrap32 (address + 4)) p) md Hmd)
    as (st & p0 & md0 & fn0 & Hrun0 & Hm0 & Ha0 & Hf0 & Hb0 & Hn0).
  destruct (write_function_obs bm address
              (Function.set_end_address (wrap32 (address + 4))) p0 md0 fn0
              Hm0 Ha0)
    as (p1 & md1 & Hrun1 & Hm1 & Ha1 & Hf1 & Hb1 & Hn1).
  destruct (write_function_obs bm address (Function.set_name name')
              p1 md1 _ Hm1 Ha1)
    as (p2 & md2 & Hrun2 & Hm2 & Ha2 & Hf2 & Hb2 & Hn2).
  destruct (write_function_obs bm address
              (Function.SetupBuiltin handler arg0 arg1) p2 md2 _ Hm2 Ha2)
    as (p3 & md3 & Hrun3 & Hm3 & Ha3 & Hf3 & Hb3 & Hn3).
  destruct (write_function_obs bm address
              (Function.set_status Symbol.kDeclared) p3 md3 _ Hm3 Ha3)
    as (p4 & md4 & Hrun4 & Hm4 & Ha4 & Hf4 & Hb4 & Hn4).
  exists p4, md4. eexists. split.
  { unfold DefineBuiltin. rewrite bind_gets, bind_modify, bind_gets.
    cbn [builtin_module_ set_next_builtin_address]. fold address.
    rewrite Hbm, bind_deref_Some, (bind_run _ _ _ _ _ Hrun0).
    rewrite (bind_run _ _ _ _ _ Hrun1), (bind_run _ _ _ _ _ Hrun2),
      (bind_run _ _ _ _ _ Hrun3), (bind_run _ _ _ _ _ Hrun4).
    reflexivity. }
  split; [by rewrite Hb4, Hb3, Hb2, Hb1, Hb0|].
  split; [by rewrite Hn4, Hn3, Hn2, Hn1, Hn0|].
  split; [exact Hm4|]. split; [exact Ha4|].
  split; [|done].
  intros a Hne. by rewrite Hf4, Hf3, Hf2, Hf1, Hf0.
Qed.

(** *** Arithmetic of the cursor *)

Lemma wrap32_range x : 0 <= wrap32 x < 2 ^ 32.
Proof. unfold wrap32. apply Z.mod_pos_bound. lia. Qed.

Lemma wrap32_add_l x y : wrap32 (wrap32 x + y) = wrap32 (x + y).
Proof. unfold wrap32. apply Z.add_mod_idemp_l. lia. Qed.

Lemma wrap32_small x : 0 <= x < 2 ^ 32 -> wrap32 x = x.
Proof. unfold wrap32. apply Z.mod_small. Qed.

Lemma wrap32_aligned x : x mod 4 = 0 -> wrap32 x mod 4 = 0.
Proof.
  unfold wrap32. change (2 ^ 32) with 4294967296.
  intros H. Z.div_mod_to_equations. lia.
Qed.

(** The cursor comes back to an address only after [2^30] steps. *)
Lemma nth_builtin_address_inj start (i j : nat) :
  Z.of_nat i < 2 ^ 30 -> Z.of_nat j < 2 ^ 30 ->
  nth_builtin_address start i = nth_builtin_address start j -> i = j.
Proof.
  unfold nth_builtin_address, wrap32.
  change (2 ^ 32) with 4294967296. change (2 ^ 30) with 1073741824.
  intros Hi Hj H. Z.div_mod_to_equations. lia.
Qed.

Lemma nth_builtin_address_S start k :
  nth_builtin_address (wrap32 (start + 4)) k
  = nth_builtin_address start (S k).
Proof.
  unfold nth_builtin_address. rewrite wrap32_add_l. f_equal. lia.
Qed.

Lemma land_le_l (a b : Z) : 0 <= a -> 0 <= b -> Z.land a b <= a.
Proof.
  intros Ha Hb. rewrite <- (Z2N.id a), <- (Z2N.id b) by done.
  rewrite <- N2Z.inj_land. apply N2Z.inj_le, N.land_le_l.
Qed.

(** [BuiltinModule::ContainsAddress] on 32-bit addresses: the sixteen
    addresses from [0xFFFFFFF0] up. *)
Lemma BuiltinModule_ContainsAddress address :
  0 <= address < 2 ^ 32 ->
  ContainsAddress BuiltinModule address = true <-> 0xFFFFFFF0 <= address.
Proof.
  intros Hrange. cbn [ContainsAddress BuiltinModule]. rewrite Z.eqb_eq.
  split.
  - intros H. rewrite <- H. apply land_le_l; lia.
  - intros H. change (2 ^ 32) with 4294967296 in Hrange.
    assert (Hk : exists k, address = 0xFFFFFFF0 + Z.of_nat k /\ (k < 16)%nat).
    { exists (Z.to_nat (address - 0xFFFFFFF0)). lia. }
    destruct Hk as (k & -> & Hk).
    do 16 (destruct k as [|k]; [reflexivity|]). lia.
Qed.

(** *** A run of allocations *)

Lemma DefineBuiltin_each_run builtins :
  forall p bm md,
    builtin_module_ p = Some bm ->
    modules_ p !! bm = Some md ->
    let start := next_builtin_address_ p in
    0 <= start < 2 ^ 32 ->
    Z.of_nat (length builtins) <= 2 ^ 30 ->
    exists p' md',
      DefineBuiltin_each builtins p
      = Some ((fun k => {| fn_module := bm;
                           fn_address := nth_builtin_address start k |})
                <$> seq 0 (length builtins), p')
      /\ builtin_module_ p' = Some bm
      /\ modules_ p' !! bm = Some md'
      /\ (forall a,
            (forall k, (k < length builtins)%nat ->
                       a <> nth_builtin_address start k) ->
            map_ md' !! a = map_ md !! a)
      /\ (forall k b, builtins !! k = Some b ->
            exists fn, map_ md' !! nth_builtin_address start k = Some fn
                       /\ defined_as b (nth_builtin_address start k) fn).
Proof.
  induction builtins as [|b rest IH]; intros p bm md Hbm Hmd start Hs Hlen.
  - exists p, md. cbn. repeat split; try done.
  - cbn [DefineBuiltin_each length] in *.
    destruct (DefineBuiltin_run (bi_name b) (bi_handler b) (bi_arg0 b)
                (bi_arg1 b) p bm md Hbm Hmd)
      as (p1 & md1 & fn & Hrun & Hbm1 & Hnext1 & Hmd1 & Hfn & Hframe1 & Hdef).
    fold start in Hrun, Hnext1, Hfn, Hframe1, Hdef.
    destruct (IH p1 bm md1 Hbm1 Hmd1) as
      (p' & md' & Hrun' & Hbm' & Hmd' & Hframe' & Hdef').
    { rewrite Hnext1. apply wrap32_range. }
    { lia. }
    rewrite Hnext1 in Hrun', Hframe', Hdef'.
    assert (H0 : nth_builtin_address start 0 = start).
    { unfold nth_builtin_address. rewrite Z.add_0_r. by apply wrap32_small. }
    exists p', md'. split; [|split; [done|split; [done|split]]].
    + rewrite (bind_run _ _ _ _ _ Hrun), (bind_run _ _ _ _ _ Hrun').
      unfold ret. cbn [seq fmap list_fmap]. rewrite H0.
      do 3 f_equal. rewrite <- fmap_S_seq, <- list_fmap_compose.
      apply list_fmap_ext. intros _ k _. cbn.
      by rewrite nth_builtin_address_S.
    + intros a Ha. rewrite Hframe'.
      * apply Hframe1. rewrite <- H0. apply Ha. lia.
      * intros k Hk. rewrite nth_builtin_address_S. apply Ha. lia.
    + intros [|k] b' Hb'.
      * injection Hb' as <-. rewrite H0. exists fn. split; [|exact Hdef].
        rewrite Hframe'; [exact Hfn|].
        intros k Hk. rewrite nth_builtin_address_S. intros Heq.
        rewrite <- H0 in Heq at 1.
        apply nth_builtin_address_inj in Heq; lia.
      * cbn in Hb'. destruct (Hdef' k b' Hb') as (fn' & Hfn' & Hdef'').
        rewrite nth_builtin_address_S in Hfn', Hdef''. by exists fn'.
Qed.

(** C8, as the code has it.  From a 4-aligned cursor [start], the [k]-th
    call of [DefineBuiltin] allocates [(start + 4k) mod 2^32] in the builtin
    module.  Up to [2^30] calls, the addresses are pairwise distinct and
    4-byte aligned, and each symbol has [end_address = (address + 4) mod
    2^32], status DECLARED and the name, handler and arguments it was
    defined with.  An allocated address satisfies the builtin module's
    [ContainsAddress] exactly when it is at least [0xFFFFFFF0]. *)
Theorem DefineBuiltin_allocates builtins p bm md :
  builtin_module_ p = Some bm ->
  modules_ p !! bm = Some md ->
  let start := next_builtin_address_ p in
  0 <= start < 2 ^ 32 ->
  start mod 4 = 0 ->
  Z.of_nat (length builtins) <= 2 ^ 30 ->
  exists fs p' md',
    DefineBuiltin_each builtins p = Some (fs, p')
    /\ modules_ p' !! bm = Some md'
    /\ length fs = length builtins
    /\ NoDup (fn_address <$> fs)
    /\ (forall k f, fs !! k = Some f ->
          fn_module f = bm
          /\ fn_address f = nth_builtin_address start k
          /\ fn_address f mod 4 = 0
          /\ (ContainsAddress BuiltinModule (fn_address f) = true
              <-> 0xFFFFFFF0 <= fn_address f))
    /\ (forall k f b, fs !! k = Some f -> builtins !! k = Some b ->
          exists fn, map_ md' !! fn_address f = Some fn
                     /\ defined_as b (fn_address f) fn).
Proof.
  intros Hbm Hmd start Hs Halign Hlen.
  destruct (DefineBuiltin_each_run builtins p bm md Hbm Hmd Hs Hlen)
    as (p' & md' & Hrun & _ & Hmd' & _ & Hdef).
  fold start in Hrun, Hdef.
  eexists _, p', md'. split; [exact Hrun|]. split; [exact Hmd'|].
  assert (Hlookup : forall k f,
            ((fun k => {| fn_module := bm;
                          fn_address := nth_builtin_address start k |})
               <$> seq 0 (length builtins)) !! k = Some f ->
            (k < length builtins)%nat
            /\ f = {| fn_module := bm;
                      fn_address := nth_builtin_address start k |}).
  { intros k f Hk. rewrite list_lookup_fmap in Hk.
    destruct (seq 0 (length builtins) !! k) as [k'|] eqn:Hseq;
      [|discriminate].
    apply lookup_seq in Hseq as [-> Hlt]. cbn in Hk. by injection Hk as <-. }
  split; [by rewrite length_fmap, length_seq|].
  split; [|split].
  - rewrite <- list_fmap_compose. apply NoDup_fmap_2_strong; [|apply NoDup_seq].
    intros i j Hi Hj Heq. cbn in Heq.
    apply elem_of_seq in Hi, Hj.
    apply nth_builtin_address_inj in Heq; lia.
  - intros k f Hf. destruct (Hlookup k f Hf) as [Hk ->]. cbn.
    split; [done|]. split; [done|]. split.
    + unfold nth_builtin_address. apply wrap32_aligned.
      rewrite Z.add_mod, Halign by lia.
      rewrite Z.mul_comm, Z.mod_mul by lia. reflexivity.
    + apply BuiltinModule_ContainsAddress, wrap32_range.
  - intros k f b Hf Hb. destruct (Hlookup k f Hf) as [Hk ->]. cbn.
    exact (Hdef k b Hb).
Qed.

Lemma DefineBuiltin_allocates_witness :
  let p := Fixture.booted Fixture.good in
  let builtins := [Fixture.xk; Fixture.xk; Fixture.xk] in
  next_builtin_address_ p = 0xFFFFFFF0
  /\ exists fs p' md',
       DefineBuiltin_each builtins p = Some (fs, p')
       /\ modules_ p' !! 0%nat = Some md'
       /\ NoDup (fn_address <$> fs)
       /\ forall k f, fs !! k = Some f ->
            fn_address f = nth_builtin_address 0xFFFFFFF0 k
            /\ fn_address f mod 4 = 0.
Proof.
  intros p builtins. split; [reflexivity|].
  destruct (DefineBuiltin_allocates builtins p 0%nat BuiltinModule)
    as (fs & p' & md' & Hrun & Hmd' & _ & Hnodup & Haddr & _).
  - reflexivity.
  - reflexivity.
  - change (next_builtin_address_ p) with 0xFFFFFFF0. lia.
  - reflexivity.
  - cbn. lia.
  - exists fs, p', md'. split; [exact Hrun|]. split; [exact Hmd'|].
    split; [exact Hnodup|].
    intros k f Hf. destruct (Haddr k f Hf) as (_ & Ha & Hal & _).
    split; [exact Ha | exact Hal].
Defined.

(** C8, refuted as stated: with the cursor at the sentinel [0xFFFFFFF0],
    the fifth builtin is allocated at address 0, which the builtin module's
    [ContainsAddress] rejects. *)
Lemma DefineBuiltin_fifth_address_not_contained :
  let p := Fixture.booted Fixture.good in
  next_builtin_address_ p = 0xFFFFFFF0
  /\ fst <$> DefineBuiltin_each
               [Fixture.xk; Fixture.xk; Fixture.xk; Fixture.xk; Fixture.xk] p
     = Some [ {| fn_module := 0; fn_address := 0xFFFFFFF0 |};
              {| fn_module := 0; fn_address := 0xFFFFFFF4 |};
              {| fn_module := 0; fn_address := 0xFFFFFFF8 |};
              {| fn_module := 0; fn_address := 0xFFFFFFFC |};
              {| fn_module := 0; fn_address := 0 |} ]
  /\ ContainsAddress BuiltinModule 0 = false.
Proof. repeat split; vm_compute; reflexivity. Qed.

(** * Further properties of the processor *)

(** ** Setup, again *)

(** Everything [Setup] does to a processor, exit by exit. *)
Lemma Setup_post host p :
  post (Setup host) p
    (fun result p' =>
       is_Some (memory_ p)
       /\ memory_ p' = memory_ p
       /\ modules_ p' = modules_ p ++ [BuiltinModule]
       /\ builtin_module_ p' = Some (length (modules_ p))
       /\ debug_info_flags_ p' = 0
       /\ entry_table_ p' = entry_table_ p
       /\ next_builtin_address_ p' = next_builtin_address_ p
       /\ frontend_calls p' = frontend_calls p
       /\ (result = true ->
           frontend_ p = None /\ backend_ p = None
           /\ frontend_ p' = Some mkPPCFrontend
           /\ backend_ p' = select_backend host
           /\ is_Some (backend_ p')
           /\ is_Some (stack_walker_ p'))
       /\ (is_Some (frontend_ p) \/ is_Some (backend_ p) ->
           result = false
           /\ frontend_ p' = frontend_ p /\ backend_ p' = backend_ p
           /\ stack_walker_ p' = stack_walker_ p)).
Proof.
  unfold Setup. wp; cbn in *.
  all: repeat match goal with
         | H : bool_decide _ = true |- _ => apply bool_decide_eq_true_1 in H
         | H : bool_decide _ = false |- _ => apply bool_decide_eq_false_1 in H
         | H : _ || _ = true |- _ => apply orb_true_iff in H
         | H : _ || _ = false |- _ => apply orb_false_iff in H as [? ?]
         | H : negb _ = true |- _ => apply negb_true_iff in H
         | H : negb _ = false |- _ => apply negb_false_iff in H
         end.
  all: repeat split; try done; try congruence; try tauto.
  all: try (by apply eq_None_not_Some).
  all: try (rewrite Heqo; by eexists).
  all: try (destruct (StackWalker_Create host); [by eexists | done]).
Qed.

(** With memory attached, [Setup] returns. *)
Lemma Setup_returns host p :
  is_Some (memory_ p) -> exists result p', Setup host p = Some (result, p').
Proof.
  intros Hmem.
  unfold Setup, bind, gets, modify, assert_true, ret. cbn.
  rewrite (bool_decide_eq_true_2 _ Hmem). cbn.
  destruct (bool_decide (is_Some (frontend_ p)) ||
            bool_decide (is_Some (backend_ p))); [by eexists _, _|].
  destruct (select_backend host) as [backend|]; [|by eexists _, _].
  destruct (negb (Backend_Initialize host backend)); [by eexists _, _|].
  destruct (negb (Frontend_Initialize host)); [by eexists _, _|]. cbn.
  destruct (negb (bool_decide (is_Some (StackWalker_Create host))));
    by eexists _, _.
Qed.

(** X1: whatever [Setup] answers, it has appended a builtin module to the
    module list, pointed [builtin_module_] at it and cleared the debug
    flags; the entry table and the builtin cursor are as before.  A [Setup]
    that is refused because a frontend or backend is there leaves both in
    place. *)
Theorem Setup_always_installs_builtin_module host p :
  is_Some (memory_ p) ->
  exists result p',
    Setup host p = Some (result, p')
    /\ modules_ p' = modules_ p ++ [BuiltinModule]
    /\ builtin_module_ p' = Some (length (modules_ p))
    /\ modules_ p' !! length (modules_ p) = Some BuiltinModule
    /\ debug_info_flags_ p' = 0
    /\ entry_table_ p' = entry_table_ p
    /\ next_builtin_address_ p' = next_builtin_address_ p
    /\ (is_Some (frontend_ p) \/ is_Some (backend_ p) ->
        result = false
        /\ frontend_ p' = frontend_ p /\ backend_ p' = backend_ p).
Proof.
  intros Hmem.
  destruct (Setup_returns host p Hmem) as (result & p' & Hrun).
  destruct (Setup_post host p result p' Hrun)
    as (_ & _ & Hmods & Hbm & Hflags & Htable & Hnext & _ & _ & Hinit).
  exists result, p'. split; [exact Hrun|].
  split; [exact Hmods|]. split; [exact Hbm|].
  split; [rewrite Hmods; by apply list_lookup_middle|].
  split; [exact Hflags|]. split; [exact Htable|]. split; [exact Hnext|].
  intros H. destruct (Hinit H) as (? & ? & ? & _). done.
Qed.

Lemma Setup_always_installs_builtin_module_witness :
  exists result p',
    Setup Scenario.no_stack_walker Scenario.fresh = Some (result, p')
    /\ builtin_module_ p' = Some 0%nat
    /\ modules_ p' !! 0%nat = Some BuiltinModule.
Proof.
  destruct (Setup_always_installs_builtin_module Scenario.no_stack_walker
              Scenario.fresh)
    as (result & p' & Hrun & _ & Hbm & Hmod & _); [cbn; eauto|].
  exists result, p'. split; [exact Hrun|]. split; [exact Hbm | exact Hmod].
Defined.

(** X2: after a [Setup] that succeeded, every further [Setup], with
    whatever configuration, answers [false] and keeps the frontend and the
    backend; it still appends a second builtin module and points
    [builtin_module_] at that one. *)
Theorem Setup_succeeds_once host p p1 :
  Setup host p = Some (true, p1) ->
  forall host',
    exists p2,
      Setup host' p1 = Some (false, p2)
      /\ frontend_ p2 = frontend_ p1 /\ backend_ p2 = backend_ p1
      /\ modules_ p2 = modules_ p ++ [BuiltinModule; BuiltinModule]
      /\ builtin_module_ p2 = Some (S (length (modules_ p))).
Proof.
  intros Hfirst host'.
  destruct (Setup_post host p true p1 Hfirst)
    as (Hmem & Hmem1 & Hmods & _ & _ & _ & _ & _ & Hok & _).
  destruct (Hok eq_refl) as (_ & _ & Hfe & _ & _ & _).
  assert (Hmem' : is_Some (memory_ p1)) by (by rewrite Hmem1).
  destruct (Setup_returns host' p1 Hmem') as (result & p2 & Hrun).
  destruct (Setup_post host' p1 result p2 Hrun)
    as (_ & _ & Hmods2 & Hbm2 & _ & _ & _ & _ & _ & Hinit).
  destruct Hinit as (-> & Hfe2 & Hbe2 & _);
    [left; rewrite Hfe; by eexists|].
  exists p2. split; [exact Hrun|]. split; [exact Hfe2|].
  split; [exact Hbe2|]. split.
  - rewrite Hmods2, Hmods. by rewrite <- app_assoc.
  - rewrite Hbm2, Hmods, length_app. cbn. f_equal. lia.
Qed.

Lemma Setup_succeeds_once_witness :
  let p1 := exec (Setup Fixture.good) Scenario.fresh in
  Setup Fixture.good Scenario.fresh = Some (true, p1)
  /\ exists p2, Setup Scenario.no_stack_walker p1 = Some (false, p2)
       /\ builtin_module_ p2 = Some 1%nat.
Proof.
  intros p1.
  assert (Hfirst : Setup Fixture.good Scenario.fresh = Some (true, p1)).
  { apply (run_exec (Setup Fixture.good) Scenario.fresh true).
    vm_compute; reflexivity. }
  split; [exact Hfirst|].
  destruct (Setup_succeeds_once Fixture.good Scenario.fresh p1 Hfirst
              Scenario.no_stack_walker) as (p2 & Hrun & _ & _ & _ & Hbm).
  exists p2. split; [exact Hrun | exact Hbm].
Defined.

(** X3: when only the stack walker cannot be created, [Setup] answers
    [false] with the frontend and the backend already installed; the
    processor then refuses every further [Setup]. *)
Theorem Setup_without_stack_walker_is_final host p backend :
  is_Some (memory_ p) ->
  frontend_ p = None -> backend_ p = None ->
  select_backend host = Some backend ->
  Backend_Initialize host backend = true ->
  Frontend_Initialize host = true ->
  StackWalker_Create host = None ->
  exists p1,
    Setup host p = Some (false, p1)
    /\ frontend_ p1 = Some mkPPCFrontend
    /\ backend_ p1 = Some backend
    /\ stack_walker_ p1 = None
    /\ forall host', exists p2, Setup host' p1 = Some (false, p2).
Proof.
  intros Hmem Hfe Hbe Hsel Hbi Hfi Hsw.
  assert (Hrun : exists p1,
             Setup host p = Some (false, p1)
             /\ frontend_ p1 = Some mkPPCFrontend
             /\ backend_ p1 = Some backend
             /\ stack_walker_ p1 = None
             /\ memory_ p1 = memory_ p).
  { unfold Setup, bind, gets, modify, assert_true, ret. cbn.
    rewrite (bool_decide_eq_true_2 _ Hmem). cbn.
    rewrite Hfe, Hbe. cbn.
    rewrite Hsel, Hbi, Hfi. cbn. rewrite Hsw. cbn.
    eexists. split; [reflexivity|]. done. }
  destruct Hrun as (p1 & Hrun & Hfe1 & Hbe1 & Hsw1 & Hmem1).
  exists p1. repeat split; try done.
  intros host'.
  assert (Hmem' : is_Some (memory_ p1)) by (by rewrite Hmem1).
  destruct (Setup_returns host' p1 Hmem') as (result & p2 & Hrun2).
  destruct (Setup_post host' p1 result p2 Hrun2)
    as (_ & _ & _ & _ & _ & _ & _ & _ & _ & Hinit).
  destruct Hinit as (-> & _); [left; rewrite Hfe1; by eexists|].
  by exists p2.
Qed.

Lemma Setup_without_stack_walker_is_final_witness :
  exists p1,
    Setup Scenario.no_stack_walker Scenario.fresh = Some (false, p1)
    /\ frontend_ p1 = Some mkPPCFrontend
    /\ forall host', exists p2, Setup host' p1 = Some (false, p2).
Proof.
  destruct (Setup_without_stack_walker_is_final Scenario.no_stack_walker
              Scenario.fresh X64Backend)
    as (p1 & Hrun & Hfe & _ & _ & Hlater);
    try reflexivity; [cbn; eauto|].
  exists p1. split; [exact Hrun|]. split; [exact Hfe | exact Hlater].
Defined.

(** ** The IRQL cell, again *)

(** X4: raising the IRQL and lowering it to the value [RaiseIrql] returned
    leaves the processor exactly as it was; raising to [x] and lowering to
    [y] leaves the cell at [y], whatever it held. *)
Theorem Irql_raise_then_lower value p :
  bind (RaiseIrql value) (fun old => LowerIrql old) p = Some (tt, p)
  /\ forall x y,
       irql_ (exec (bind (RaiseIrql x) (fun _ => LowerIrql y)) p) = y.
Proof. destruct p. split; reflexivity. Qed.

(** ** The builtin module, again *)

(** X5: among 32-bit addresses the builtin module contains exactly the
    sixteen from [0xFFFFFFF0] up, so that only four 4-byte aligned
    addresses, and thus four builtin functions, fit into it. *)
Theorem BuiltinModule_holds_four_functions address :
  0 <= address < 2 ^ 32 ->
  (ContainsAddress BuiltinModule address = true <-> 0xFFFFFFF0 <= address)
  /\ (ContainsAddress BuiltinModule address = true ->
      address mod 4 = 0 ->
      address = 0xFFFFFFF0 \/ address = 0xFFFFFFF4
      \/ address = 0xFFFFFFF8 \/ address = 0xFFFFFFFC).
Proof.
  intros Hrange.
  pose proof (BuiltinModule_ContainsAddress address Hrange) as Hiff.
  split; [exact Hiff|].
  intros Hin Halign. apply Hiff in Hin.
  change (2 ^ 32) with 4294967296 in Hrange.
  Z.div_mod_to_equations. lia.
Qed.

Lemma BuiltinModule_holds_four_functions_witness :
  ContainsAddress BuiltinModule 0xFFFFFFF4 = true
  /\ ContainsAddress BuiltinModule 0xFFFFFFEC = false.
Proof.
  split.
  - apply (BuiltinModule_holds_four_functions 0xFFFFFFF4);
      change (2 ^ 32) with 4294967296; lia.
  - destruct (BuiltinModule_holds_four_functions 0xFFFFFFEC) as [Hiff _];
      [change (2 ^ 32) with 4294967296; lia|].
    destruct (ContainsAddress BuiltinModule 0xFFFFFFEC); [|done].
    exfalso. assert (0xFFFFFFF0 <= 0xFFFFFFEC) by (by apply Hiff). lia.
Defined.

(** ** Modules by name *)

(** X6: [GetModule] changes nothing and answers the first module of the
    list that carries the name, or null when no module carries it. *)
Theorem GetModule_finds_first name' p :
  exists x,
    GetModule name' p = Some (x, p)
    /\ match x with
       | Some i =>
           exists md, modules_ p !! i = Some md /\ name md = name'
             /\ forall j md', (j < i)%nat -> modules_ p !! j = Some md' ->
                              name md' <> name'
       | None => forall md, md ∈ modules_ p -> name md <> name'
       end.
Proof.
  unfold GetModule, bind, gets, ret.
  destruct (list_find _ (modules_ p)) as [[i md]|] eqn:Hfind; cbn.
  - exists (Some i). split; [reflexivity|].
    apply list_find_Some in Hfind as (Hi & Hname & Hleast).
    exists md. split; [exact Hi|]. split; [by apply String.eqb_eq|].
    intros j md' Hj Hmd' Heq. apply (Hleast j md' Hmd' Hj).
    by apply String.eqb_eq.
  - exists None. split; [reflexivity|].
    apply list_find_None in Hfind. intros md Hmd Heq.
    apply (proj1 (Forall_forall _ _) Hfind md Hmd).
    by apply String.eqb_eq.
Qed.

(** X7: a module that was added is found under its name, unless an older
    module carries the same name: then [GetModule] keeps answering the
    older one. *)
Theorem AddModule_then_GetModule module p :
  exists i,
    bind (AddModule module) (fun _ => GetModule (name module)) p
    = Some (Some i, set_modules (fun ms => ms ++ [module]) p)
    /\ (i <= length (modules_ p))%nat
    /\ (i = length (modules_ p) <->
        forall md, md ∈ modules_ p -> name md <> name module).
Proof.
  unfold AddModule, GetModule, bind, gets, modify, ret. cbn.
  set (P := fun md : CpuModule => String.eqb (name md) (name module) = true).
  destruct (list_find P (modules_ p ++ [module])) as [[i md]|] eqn:Hfind.
  - exists i. split; [reflexivity|].
    apply list_find_app_Some in Hfind as [Hold|(Hge & Hnone & Hnew)].
    + pose proof Hold as Hlt.
      apply list_find_Some in Hlt as (Hlt%lookup_lt_Some & HP & _).
      split; [lia|]. split; [lia|].
      intros Hfree. exfalso.
      apply list_find_Some in Hold as (Hi%list_elem_of_lookup_2 & _).
      apply (Hfree md Hi). by apply String.eqb_eq.
    + apply list_find_Some in Hnew as (Hlast%lookup_lt_Some & _).
      cbn in Hlast. assert (i = length (modules_ p)) as -> by lia.
      split; [lia|]. split; [|done].
      intros _ md' Hmd' Heq. apply list_find_None in Hnone.
      apply (proj1 (Forall_forall _ _) Hnone md' Hmd').
      by apply String.eqb_eq.
  - exfalso. apply list_find_None in Hfind.
    apply Forall_app in Hfind as [_ Hlast].
    apply (proj1 (Forall_forall _ _) Hlast module); [constructor|].
    unfold P. apply String.eqb_refl.
Qed.

(** ** Modules and symbols are never taken away *)

Section Steps.

Variable R : Processor -> Processor -> Prop.
Hypothesis R_refl : forall p, R p p.
Hypothesis R_trans : forall p q s, R p q -> R q s -> R p s.

Lemma steps_ret {A} (a : A) : steps R (ret a).
Proof. intros p. apply post_ret, R_refl. Qed.

Lemma steps_fault {A} : steps R (@fault A).
Proof. intros p. apply post_fault. Qed.

Lemma steps_gets {A} (f : Processor -> A) : steps R (gets f).
Proof. intros p. apply post_gets, R_refl. Qed.

Lemma steps_deref {A} (o : option A) : steps R (deref o).
Proof. intros p. apply post_deref. intros _ _. apply R_refl. Qed.

Lemma steps_assert_true b : steps R (assert_true b).
Proof. intros p. apply post_assert_true. intros _. apply R_refl. Qed.

Lemma steps_modify f : (forall p, R p (f p)) -> steps R (modify f).
Proof. intros H p. apply post_modify, H. Qed.

Lemma steps_bind {A B} (c : M A) (k : A -> M B) :
  steps R c -> (forall a, steps R (k a)) -> steps R (bind c k).
Proof.
  intros Hc Hk p. apply post_bind. intros a p1 H1 b p2 H2.
  exact (R_trans _ _ _ (Hc p a p1 H1) (Hk a p1 b p2 H2)).
Qed.

End Steps.

Lemma modules_extend_refl p : modules_extend p p.
Proof. intros i md Hi. exists md. by repeat split. Qed.

Lemma modules_extend_trans p q s :
  modules_extend p q -> modules_extend q s -> modules_extend p s.
Proof.
  intros Hpq Hqs i md Hi.
  destruct (Hpq i md Hi) as (md1 & Hi1 & Hn1 & Hc1 & Hf1 & Hs1).
  destruct (Hqs i md1 Hi1) as (md2 & Hi2 & Hn2 & Hc2 & Hf2 & Hs2).
  exists md2. split; [exact Hi2|].
  split; [congruence|]. split; [congruence|]. split; [congruence|].
  intros a Ha. apply Hs2, Hs1, Ha.
Qed.

Lemma modules_extend_app p p' l :
  modules_ p' = modules_ p ++ l -> modules_extend p p'.
Proof.
  intros Heq i md Hi. exists md. rewrite Heq.
  split; [by apply lookup_app_l_Some|]. by repeat split.
Qed.

Lemma modules_extend_same p p' :
  modules_ p' = modules_ p -> modules_extend p p'.
Proof. intros Heq. apply (modules_extend_app p p' []). by rewrite app_nil_r. Qed.

(** Replacing a module by itself with one more (or one rewritten) symbol. *)
Lemma modules_extend_put p m md a fn :
  modules_ p !! m = Some md ->
  modules_extend p (set_modules (<[m := with_map (<[a := fn]>) md]>) p).
Proof.
  intros Hm i md0 Hi. cbn.
  destruct (decide (i = m)) as [->|Hne].
  - rewrite Hm in Hi. injection Hi as <-.
    exists (with_map (<[a := fn]>) md).
    split; [apply list_lookup_insert_eq; by eapply lookup_lt_Some|].
    repeat split. intros a' Ha'. cbn.
    destruct (decide (a' = a)) as [->|Hne].
    + rewrite lookup_insert_eq. by eexists.
    + by rewrite lookup_insert_ne.
  - exists md0. rewrite list_lookup_insert_ne by done. by repeat split.
Qed.

Lemma write_function_extends function g :
  steps modules_extend (write_function function g).
Proof.
  intros p x p' Hrun.
  unfold write_function, read_module in Hrun.
  apply bind_Some in Hrun as (md & q & Hmd & Hrun).
  apply bind_Some in Hmd as (mods & q0 & [= <- <-] & Hmd).
  destruct (modules_ p !! fn_module function) as [md0|] eqn:Hm;
    [|discriminate].
  injection Hmd as <- <-.
  apply bind_Some in Hrun as (fn & q & Hfn & Hrun).
  destruct (map_ md0 !! fn_address function); [|discriminate].
  injection Hfn as <- <-. injection Hrun as _ <-.
  by apply modules_extend_put.
Qed.

Lemma Module_DeclareFunction_extends m a :
  steps modules_extend (Module_DeclareFunction m a).
Proof.
  intros p x p' Hrun.
  unfold Module_DeclareFunction, read_module in Hrun.
  apply bind_Some in Hrun as (md & q & Hmd & Hrun).
  apply bind_Some in Hmd as (mods & q0 & [= <- <-] & Hmd).
  destruct (modules_ p !! m) as [md0|] eqn:Hm; [|discriminate].
  injection Hmd as <- <-.
  destruct (map_ md0 !! a).
  - injection Hrun as _ <-. apply modules_extend_refl.
  - injection Hrun as _ <-. by apply modules_extend_put.
Qed.

(** Compose the steps of a computation. *)
Ltac steps_go :=
  repeat lazymatch goal with
    | |- steps _ (write_function _ _) => apply write_function_extends
    | |- steps _ (Module_DeclareFunction _ _) =>
        apply Module_DeclareFunction_extends
    | |- steps _ (bind _ _) =>
        apply steps_bind; [apply modules_extend_trans | | intros ?]
    | |- steps _ (ret _) => apply steps_ret; apply modules_extend_refl
    | |- steps _ fault => apply steps_fault
    | |- steps _ (gets _) => apply steps_gets; apply modules_extend_refl
    | |- steps _ (deref _) => apply steps_deref; apply modules_extend_refl
    | |- steps _ (assert_true _) =>
        apply steps_assert_true; apply modules_extend_refl
    | |- steps _ (modify _) =>
        apply steps_modify; intros ?; apply modules_extend_same; reflexivity
    | |- steps _ (match ?x with _ => _ end) => destruct x
    end.

Lemma LookupFunction_extends host a :
  steps modules_extend (LookupFunction host a).
Proof.
  unfold LookupFunction, LookupFunction_in, Frontend_DeclareFunction,
    read_function, read_module.
  steps_go.
Qed.

Lemma DemandFunction_extends host function :
  steps modules_extend (DemandFunction host function).
Proof.
  unfold DemandFunction, Module_DefineFunction, Frontend_DefineFunction,
    read_function, read_module.
  steps_go.
Qed.

Lemma ResolveFunction_extends host a :
  steps modules_extend (ResolveFunction host a).
Proof.
  unfold ResolveFunction, EntryTable_GetOrCreate, write_entry, read_entry,
    read_function, read_module.
  repeat first
    [ apply LookupFunction_extends | apply DemandFunction_extends
    | progress steps_go ].
Qed.

Lemma DefineBuiltin_extends name' handler arg0 arg1 :
  steps modules_extend (DefineBuiltin name' handler arg0 arg1).
Proof. unfold DefineBuiltin. steps_go. Qed.

Lemma Setup_extends host : steps modules_extend (Setup host).
Proof.
  intros p x p' Hrun.
  destruct (Setup_post host p x p' Hrun) as (_ & _ & Hmods & _).
  by eapply modules_extend_app.
Qed.

Lemma serve1_extends host request :
  steps modules_extend (serve1 host request).
Proof.
  destruct request; cbn [serve1].
  - apply steps_bind; [apply modules_extend_trans
      | apply ResolveFunction_extends | intros ?; steps_go].
  - unfold QueryFunction, EntryTable_Get. steps_go.
  - apply steps_bind; [apply modules_extend_trans
      | apply DefineBuiltin_extends | intros ?; steps_go].
  - unfold AddModule.
    apply steps_bind; [apply modules_extend_trans | | intros ?; steps_go].
    apply steps_bind; [apply modules_extend_trans | | intros ?; steps_go].
    apply steps_modify. intros p. by eapply modules_extend_app.
  - apply steps_bind; [apply modules_extend_trans
      | apply Setup_extends | intros ?; steps_go].
Qed.

Lemma serve_extends host requests :
  steps modules_extend (serve host requests).
Proof.
  induction requests as [|request rest IH]; cbn [serve]; [steps_go|].
  apply steps_bind; [apply modules_extend_trans | apply serve1_extends|].
  intros x.
  apply steps_bind; [apply modules_extend_trans | exact IH|].
  intros xs. steps_go.
Qed.

(** X8: no call of the processor's interface takes a module or a symbol
    away: after any sequence of [ResolveFunction], [QueryFunction],
    [DefineBuiltin], [AddModule] and [Setup], every module is at its index
    with its name and its virtual members, and every [Function*] that
    pointed to a symbol still points to one. *)
Theorem serve_keeps_modules_and_symbols host requests p xs p' :
  serve host requests p = Some (xs, p') ->
  modules_extend p p'
  /\ forall f, is_Some (symbol_at f p) -> is_Some (symbol_at f p').
Proof.
  intros Hrun.
  pose proof (serve_extends host requests p xs p' Hrun) as Hext.
  split; [exact Hext|].
  intros f. unfold symbol_at.
  destruct (modules_ p !! fn_module f) as [md|] eqn:Hmd;
    [|by intros [? [=]]].
  destruct (Hext _ _ Hmd) as (md' & -> & _ & _ & _ & Hsym). apply Hsym.
Qed.

Lemma serve_keeps_modules_and_symbols_witness :
  let host := Fixture.good in
  let p := exec (ResolveFunction host 0x82010000) (Fixture.booted host) in
  let requests := [Attach Scenario.low; Define Fixture.xk; Boot;
                   Resolve 0x82010040] in
  is_Some (symbol_at {| fn_module := 1; fn_address := 0x82010000 |}
             (exec (serve host requests) p)).
Proof.
  intros host p requests.
  destruct (serve_keeps_modules_and_symbols host requests p
              [Done true; Found (Some {| fn_module := 0;
                                         fn_address := 0xFFFFFFF0 |});
               Done false;
               Found (Some {| fn_module := 1; fn_address := 0x82010040 |})]
              (exec (serve host requests) p)) as [_ Hsym].
  - apply (run_exec (serve host requests) p). vm_compute; reflexivity.
  - apply Hsym. vm_compute. by eexists.
Defined.

(** ** Looking a function up *)

Lemma containing_module_Some a mods m :
  containing_module a mods = Some m <->
  exists md, list_find (fun module => ContainsAddress module a = true) mods
             = Some (m, md).
Proof.
  unfold containing_module. split.
  - intros ([m' md] & Hfind & [= <-])%fmap_Some. by exists md.
  - intros (md & ->). reflexivity.
Qed.

(** The symbol is there: it is handed out as it is. *)
Lemma LookupFunction_existing host a p m md fn :
  list_find (fun module => ContainsAddress module a = true) (modules_ p)
    = Some (m, md) ->
  map_ md !! a = Some fn ->
  LookupFunction host a p
  = Some (Some {| fn_module := m; fn_address := a |}, p).
Proof.
  intros Hfind Hfn. pose proof Hfind as (Hm & _)%list_find_Some.
  unfold LookupFunction, LookupFunction_in, Module_DeclareFunction,
    read_module, bind, gets, deref, ret.
  rewrite Hfind. cbn. by rewrite Hm, Hfn.
Qed.

(** The symbol is new and the module's factory makes functions that are
    not guest functions: the assertion fails. *)
Lemma LookupFunction_not_guest host a p m md :
  list_find (fun module => ContainsAddress module a = true) (modules_ p)
    = Some (m, md) ->
  map_ md !! a = None ->
  Function.is_guest (CreateFunction md a) = false ->
  LookupFunction host a p = None.
Proof.
  intros Hfind Hfn Hguest. pose proof Hfind as (Hm & _)%list_find_Some.
  assert (Hlt : (m < length (modules_ p))%nat) by (by eapply lookup_lt_Some).
  unfold LookupFunction, LookupFunction_in, Module_DeclareFunction,
    read_function, read_module, bind, gets, deref, ret, modify, assert_true.
  rewrite Hfind. cbn. rewrite Hm, Hfn. cbn.
  rewrite list_lookup_insert_eq by done. cbn.
  rewrite lookup_insert_eq. by rewrite Hguest.
Qed.

(** The symbol is new and a guest function: the frontend is asked once and
    the symbol is left DECLARED, with its extent, or FAILED. *)
Lemma LookupFunction_declares host a p m md fe :
  list_find (fun module => ContainsAddress module a = true) (modules_ p)
    = Some (m, md) ->
  map_ md !! a = None ->
  Function.is_guest (CreateFunction md a) = true ->
  frontend_ p = Some fe ->
  let function := {| fn_module := m; fn_address := a |} in
  let answer := PPCFrontend_DeclareFunction host (frontend_calls p) a in
  exists p',
    LookupFunction host a p
    = Some (match answer with Some _ => Some function | None => None end, p')
    /\ frontend_calls p' = frontend_calls p ++ [FeDeclare a]
    /\ symbol_at function p'
       = Some (match answer with
               | Some extent =>
                   Function.set_status Symbol.kDeclared
                     (Function.set_end_address extent (CreateFunction md a))
               | None =>
                   Function.set_status Symbol.kFailed (CreateFunction md a)
               end)
    /\ frontend_ p' = frontend_ p
    /\ debug_info_flags_ p' = debug_info_flags_ p
    /\ debugger_events p' = debugger_events p
    /\ entry_table_ p' = entry_table_ p.
Proof.
  intros Hfind Hfn Hguest Hfe function answer.
  pose proof Hfind as (Hm & _)%list_find_Some.
  assert (Hlt : (m < length (modules_ p))%nat) by (by eapply lookup_lt_Some).
  unfold LookupFunction, LookupFunction_in, Module_DeclareFunction,
    Frontend_DeclareFunction, write_function,
    read_function, read_module, bind, gets, deref, ret, modify, assert_true.
  rewrite Hfind. cbn. rewrite Hm, Hfn. cbn.
  rewrite list_lookup_insert_eq by done. cbn.
  rewrite lookup_insert_eq, Hguest. cbn. rewrite Hfe. cbn.
  fold answer. destruct answer as [extent|]; cbn.
  - rewrite !list_lookup_insert_eq by (by rewrite ?length_insert). cbn.
    rewrite !lookup_insert_eq. cbn.
    rewrite !list_lookup_insert_eq by (by rewrite ?length_insert). cbn.
    rewrite !lookup_insert_eq.
    eexists. split; [reflexivity|]. split; [reflexivity|].
    split; [|done].
    unfold symbol_at. cbn.
    rewrite !list_lookup_insert_eq by (by rewrite ?length_insert). cbn.
    by rewrite !lookup_insert_eq.
  - rewrite !list_lookup_insert_eq by (by rewrite ?length_insert). cbn.
    rewrite !lookup_insert_eq.
    eexists. split; [reflexivity|]. split; [reflexivity|].
    split; [|done].
    unfold symbol_at. cbn.
    rewrite !list_lookup_insert_eq by (by rewrite ?length_insert). cbn.
    by rewrite !lookup_insert_eq.
Qed.

Lemma LookupFunction_no_module host a p :
  containing_module a (modules_ p) = None ->
  LookupFunction host a p = Some (None, p).
Proof.
  intros Hnone. unfold LookupFunction, bind, gets.
  unfold containing_module in Hnone. by rewrite Hnone.
Qed.

Lemma LookupFunction_result host a p :
  post (LookupFunction host a) p
    (fun x _ =>
       forall f, x = Some f ->
                 containing_module a (modules_ p) = Some (fn_module f)
                 /\ fn_address f = a).
Proof.
  unfold LookupFunction, LookupFunction_in, Module_DeclareFunction,
    Frontend_DeclareFunction, read_function, write_function, read_module.
  wp; intros f' [= <-]; by split.
Qed.

(** X9: [LookupFunction] hands out a function of the first module of the
    list that contains the address, at that address; modules further down
    the list that contain the address too are not asked.  When no module
    contains the address it answers null and changes nothing. *)
Theorem LookupFunction_takes_first_module host a p :
  (forall x p', LookupFunction host a p = Some (x, p') ->
     forall f, x = Some f ->
       fn_address f = a
       /\ exists md,
            modules_ p !! fn_module f = Some md
            /\ ContainsAddress md a = true
            /\ forall j md', (j < fn_module f)%nat ->
                 modules_ p !! j = Some md' -> ContainsAddress md' a = false)
  /\ ((forall md, md ∈ modules_ p -> ContainsAddress md a = false) ->
      LookupFunction host a p = Some (None, p)).
Proof.
  split.
  - intros x p' Hrun f ->.
    destruct (LookupFunction_result host a p _ _ Hrun f eq_refl)
      as [Hm Ha].
    split; [exact Ha|].
    apply containing_module_Some in Hm as (md & Hfind).
    apply list_find_Some in Hfind as (Hmd & Hin & Hleast).
    exists md. split; [exact Hmd|]. split; [exact Hin|].
    intros j md' Hj Hmd'. specialize (Hleast j md' Hmd' Hj).
    by destruct (ContainsAddress md' a).
  - intros Hnone. apply LookupFunction_no_module.
    unfold containing_module.
    rewrite (proj2 (list_find_None _ (modules_ p))); [done|].
    apply Forall_forall. intros md Hmd. rewrite (Hnone md Hmd). done.
Qed.

(** Two modules contain [0x82010000]; the older one gets the function. *)
Lemma LookupFunction_takes_first_module_witness :
  let host := Fixture.good in
  let p := exec (AddModule Scenario.overlay) (Fixture.booted host) in
  ContainsAddress Scenario.overlay 0x82010000 = true
  /\ fst <$> LookupFunction host 0x82010000 p
     = Some (Some {| fn_module := 1; fn_address := 0x82010000 |})
  /\ forall j md', (j < 1)%nat -> modules_ p !! j = Some md' ->
                   ContainsAddress md' 0x82010000 = false.
Proof.
  intros host p. split; [reflexivity|].
  assert (Hrun : LookupFunction host 0x82010000 p
                 = Some (Some {| fn_module := 1; fn_address := 0x82010000 |},
                         exec (LookupFunction host 0x82010000) p)).
  { apply (run_exec (LookupFunction host 0x82010000) p).
    vm_compute; reflexivity. }
  split; [by rewrite Hrun|].
  destruct (LookupFunction_takes_first_module host 0x82010000 p)
    as [Hfirst _].
  destruct (Hfirst _ _ Hrun _ eq_refl) as (_ & md & _ & _ & Hleast).
  exact Hleast.
Defined.

(** X10: once [LookupFunction] has returned for an address that some module
    contains, be it with a function or, after a failed declaration, with
    null, every further [LookupFunction] for the address hands out the
    symbol of the first containing module, FAILED or not, without calling
    the frontend and without changing the processor. *)
Theorem LookupFunction_declares_once host a p x p1 m :
  LookupFunction host a p = Some (x, p1) ->
  containing_module a (modules_ p) = Some m ->
  LookupFunction host a p1
  = Some (Some {| fn_module := m; fn_address := a |}, p1)
  /\ is_Some (symbol_at {| fn_module := m; fn_address := a |} p1).
Proof.
  intros Hrun Hm.
  pose proof (LookupFunction_extends host a p x p1 Hrun) as Hext.
  apply containing_module_Some in Hm as (md & Hfind).
  pose proof Hfind as (Hmd & Hin & Hleast)%list_find_Some.
  destruct (Hext m md Hmd) as (md1 & Hmd1 & _ & Hc1 & _ & Hsym).
  assert (Hfind1 : list_find (fun module => ContainsAddress module a = true)
                     (modules_ p1) = Some (m, md1)).
  { apply list_find_Some. split; [exact Hmd1|]. split; [by rewrite Hc1|].
    intros j y Hy Hj.
    destruct (lookup_lt_is_Some_2 (modules_ p) j) as [yj Hyj].
    { apply lookup_lt_Some in Hmd. lia. }
    destruct (Hext j yj Hyj) as (y' & Hy' & _ & Hcy & _).
    rewrite Hy in Hy'. injection Hy' as <-. rewrite Hcy.
    exact (Hleast j yj Hyj Hj). }
  assert (Hthere : is_Some (map_ md1 !! a)).
  { destruct (map_ md !! a) as [fn|] eqn:Hfn; [apply Hsym; by eexists|].
    destruct (Function.is_guest (CreateFunction md a)) eqn:Hguest.
    - destruct (frontend_ p) as [fe|] eqn:Hfe.
      + destruct (LookupFunction_declares host a p m md fe Hfind Hfn
                    Hguest Hfe) as (p' & Hrun' & _ & Hsym' & _).
        rewrite Hrun in Hrun'. injection Hrun' as _ <-.
        unfold symbol_at in Hsym'. cbn in Hsym'. rewrite Hmd1 in Hsym'.
        rewrite Hsym'. by eexists.
      + exfalso. revert Hrun.
        unfold LookupFunction, LookupFunction_in, Module_DeclareFunction,
          Frontend_DeclareFunction, read_function, read_module, bind, gets,
          deref, ret, modify, assert_true.
        rewrite Hfind. cbn. rewrite Hmd, Hfn. cbn.
        rewrite list_lookup_insert_eq by (by eapply lookup_lt_Some). cbn.
        rewrite lookup_insert_eq, Hguest. cbn. by rewrite Hfe.
    - by rewrite (LookupFunction_not_guest host a p m md Hfind Hfn Hguest)
        in Hrun. }
  destruct Hthere as [fn1 Hfn1]. split.
  - exact (LookupFunction_existing host a p1 m md1 fn1 Hfind1 Hfn1).
  - unfold symbol_at. cbn. rewrite Hmd1, Hfn1. by eexists.
Qed.

(** After a failed declaration the FAILED symbol is handed out. *)
Lemma LookupFunction_declares_once_witness :
  let host := Fixture.declare_fails in
  let p := Fixture.booted host in
  let p1 := exec (LookupFunction host 0x82010000) p in
  fst <$> LookupFunction host 0x82010000 p = Some None
  /\ LookupFunction host 0x82010000 p1
     = Some (Some {| fn_module := 1; fn_address := 0x82010000 |}, p1)
  /\ frontend_calls p1 = [FeDeclare 0x82010000].
Proof.
  intros host p p1.
  assert (Hrun : LookupFunction host 0x82010000 p = Some (None, p1)).
  { apply (run_exec (LookupFunction host 0x82010000) p).
    vm_compute; reflexivity. }
  split; [by rewrite Hrun|].
  split; [|vm_compute; reflexivity].
  apply (LookupFunction_declares_once host 0x82010000 p None p1 1 Hrun).
  vm_compute; reflexivity.
Defined.

(** ** Demanding a function *)

Lemma symbol_at_Some f p fn :
  symbol_at f p = Some fn <->
  exists md, modules_ p !! fn_module f = Some md
             /\ map_ md !! fn_address f = Some fn.
Proof.
  unfold symbol_at. split.
  - destruct (modules_ p !! fn_module f) as [md|]; [|discriminate]. eauto.
  - intros (md & -> & Hfn). exact Hfn.
Qed.

Lemma DemandFunction_dangling host f p :
  symbol_at f p = None -> DemandFunction host f p = None.
Proof.
  unfold symbol_at, DemandFunction, Module_DefineFunction, read_function,
    read_module, bind, gets, deref, ret.
  destruct (modules_ p !! fn_module f) as [md|]; [|done]. by intros ->.
Qed.

(** A symbol that is not DECLARED is not defined again: the answer is
    whether it is FAILED. *)
Lemma DemandFunction_settled host f p fn :
  symbol_at f p = Some fn ->
  Function.status fn <> Symbol.kDeclared ->
  DemandFunction host f p
  = Some (negb (Symbol.Status_eqb (Function.status fn) Symbol.kFailed), p).
Proof.
  intros (md & Hmd & Hfn)%symbol_at_Some Hs.
  unfold DemandFunction, Module_DefineFunction, read_function,
    read_module, bind, gets, deref, ret.
  rewrite Hmd, Hfn. by destruct (Function.status fn).
Qed.

(** A DECLARED guest symbol is defined now: the frontend is asked once, the
    debugger, if there is one, hears of a success, and the symbol is left
    DEFINED or FAILED. *)
Lemma DemandFunction_defines host f p fn fe :
  symbol_at f p = Some fn ->
  Function.status fn = Symbol.kDeclared ->
  Function.is_guest fn = true ->
  frontend_ p = Some fe ->
  let flags := debug_info_flags_ p in
  let ok := PPCFrontend_DefineFunction host (frontend_calls p)
              (fn_address f) flags in
  exists p',
    DemandFunction host f p = Some (ok, p')
    /\ frontend_calls p'
       = frontend_calls p ++ [FeDefine (fn_address f) flags]
    /\ debugger_events p'
       = debugger_events p
         ++ (if ok && bool_decide (is_Some (debugger_ p)) then [f] else [])
    /\ symbol_at f p'
       = Some (Function.set_status
                 (if ok then Symbol.kDefined else Symbol.kFailed) fn)
    /\ entry_table_ p' = entry_table_ p.
Proof.
  intros (md & Hmd & Hfn)%symbol_at_Some Hs Hguest Hfe flags ok.
  assert (Hlt : (fn_module f < length (modules_ p))%nat)
    by (by eapply lookup_lt_Some).
  unfold DemandFunction, Module_DefineFunction, Frontend_DefineFunction,
    write_function, read_function, read_module, bind, gets, deref, ret,
    modify, assert_true.
  rewrite Hmd, Hfn, Hs. cbn. rewrite Hmd, Hfn, Hguest. cbn.
  rewrite Hfe. cbn. fold flags. fold ok.
  destruct ok; cbn.
  - destruct (bool_decide (is_Some (debugger_ p))); cbn;
      rewrite Hmd, Hfn; cbn;
      rewrite list_lookup_insert_eq by done; cbn;
      rewrite lookup_insert_eq; cbn;
      (eexists; split; [reflexivity|]; split; [reflexivity|];
       split; [by rewrite ?app_nil_r|]; split; [|reflexivity]);
      unfold symbol_at; cbn;
      rewrite list_lookup_insert_eq by done; cbn;
      by rewrite lookup_insert_eq.
  - rewrite Hmd, Hfn. cbn.
    eexists. split; [reflexivity|]. split; [reflexivity|].
    split; [by rewrite app_nil_r|]. split; [|reflexivity].
    unfold symbol_at; cbn.
    rewrite list_lookup_insert_eq by done; cbn.
    by rewrite lookup_insert_eq.
Qed.

(** What is left when [DemandFunction] returned. *)
Lemma DemandFunction_cases host f p b p1 :
  DemandFunction host f p = Some (b, p1) ->
  exists fn,
    symbol_at f p = Some fn
    /\ ((Function.status fn <> Symbol.kDeclared /\ p1 = p
         /\ b = negb (Symbol.Status_eqb (Function.status fn) Symbol.kFailed))
        \/ (Function.status fn = Symbol.kDeclared
            /\ frontend_calls p1
               = frontend_calls p
                 ++ [FeDefine (fn_address f) (debug_info_flags_ p)]
            /\ debugger_events p1
               = debugger_events p
                 ++ (if b && bool_decide (is_Some (debugger_ p))
                     then [f] else [])
            /\ symbol_at f p1
               = Some (Function.set_status
                         (if b then Symbol.kDefined else Symbol.kFailed) fn))).
Proof.
  intros Hrun.
  destruct (symbol_at f p) as [fn|] eqn:Hsym;
    [|by rewrite (DemandFunction_dangling host f p Hsym) in Hrun].
  exists fn. split; [reflexivity|].
  assert (Hdec : Function.status fn = Symbol.kDeclared
                 \/ Function.status fn <> Symbol.kDeclared)
    by (destruct (Function.status fn); (by left) || (by right)).
  destruct Hdec as [Hs|Hs].
  - right. split; [exact Hs|].
    destruct (Function.is_guest fn) eqn:Hguest;
      [destruct (frontend_ p) as [fe|] eqn:Hfe|].
    + destruct (DemandFunction_defines host f p fn fe Hsym Hs Hguest Hfe)
        as (p' & Hrun' & Hcalls & Hdbg & Hsym' & _).
      rewrite Hrun in Hrun'. injection Hrun' as -> <-. done.
    + exfalso. revert Hrun.
      apply symbol_at_Some in Hsym as (md & Hmd & Hfn).
      unfold DemandFunction, Module_DefineFunction, Frontend_DefineFunction,
        read_function, read_module, bind, gets, deref, ret, assert_true.
      rewrite Hmd, Hfn, Hs. cbn. rewrite Hmd, Hfn, Hguest. cbn.
      by rewrite Hfe.
    + exfalso. revert Hrun.
      apply symbol_at_Some in Hsym as (md & Hmd & Hfn).
      unfold DemandFunction, Module_DefineFunction,
        read_function, read_module, bind, gets, deref, ret, assert_true.
      rewrite Hmd, Hfn, Hs. cbn. by rewrite Hmd, Hfn, Hguest.
  - left. rewrite (DemandFunction_settled host f p fn Hsym Hs) in Hrun.
    by injection Hrun as <- <-.
Qed.

(** X11: [DemandFunction] defines a symbol once.  When it has returned,
    having called the frontend at most once, every further
    [DemandFunction] for the function gives the same answer without calling
    the frontend and without changing the processor. *)
Theorem DemandFunction_defines_once host f p b p1 :
  DemandFunction host f p = Some (b, p1) ->
  DemandFunction host f p1 = Some (b, p1)
  /\ (frontend_calls p1 = frontend_calls p
      \/ frontend_calls p1
         = frontend_calls p
           ++ [FeDefine (fn_address f) (debug_info_flags_ p)]).
Proof.
  intros Hrun.
  destruct (DemandFunction_cases host f p b p1 Hrun)
    as (fn & Hsym & [(Hs & -> & ->)|(Hs & Hcalls & _ & Hsym1)]).
  - split; [by apply DemandFunction_settled | by left].
  - split; [|by right].
    rewrite (DemandFunction_settled host f p1 _ Hsym1);
      by destruct b.
Qed.

Lemma DemandFunction_defines_once_witness :
  let host := Fixture.define_fails in
  let f := {| fn_module := 1; fn_address := 0x82010000 |} in
  let p := exec (LookupFunction host 0x82010000) (Fixture.booted host) in
  let p1 := exec (DemandFunction host f) p in
  DemandFunction host f p = Some (false, p1)
  /\ DemandFunction host f p1 = Some (false, p1)
  /\ frontend_calls p1 = [FeDeclare 0x82010000; FeDefine 0x82010000 0].
Proof.
  intros host f p p1.
  assert (Hrun : DemandFunction host f p = Some (false, p1)).
  { apply (run_exec (DemandFunction host f) p). vm_compute; reflexivity. }
  split; [exact Hrun|].
  split; [|vm_compute; reflexivity].
  apply (DemandFunction_defines_once host f p false p1 Hrun).
Defined.

(** X12: the debugger hears of a function exactly when a debugger is
    attached, the symbol was DECLARED when [DemandFunction] was entered and
    the frontend defined it; a failed definition and a function that was
    defined before are not reported. *)
Theorem DemandFunction_tells_debugger host f p b p1 :
  DemandFunction host f p = Some (b, p1) ->
  exists fn,
    symbol_at f p = Some fn
    /\ debugger_events p1
       = debugger_events p
         ++ (if b && bool_decide (is_Some (debugger_ p))
                && Symbol.Status_eqb (Function.status fn) Symbol.kDeclared
             then [f] else []).
Proof.
  intros Hrun.
  destruct (DemandFunction_cases host f p b p1 Hrun)
    as (fn & Hsym & [(Hs & -> & ->)|(Hs & _ & Hdbg & _)]).
  - exists fn. split; [exact Hsym|].
    destruct (Function.status fn); try done;
      by rewrite ?andb_false_r, app_nil_r.
  - exists fn. split; [exact Hsym|].
    by rewrite Hdbg, Hs, andb_true_r.
Qed.

Lemma DemandFunction_tells_debugger_witness :
  let host := Fixture.good in
  let f := {| fn_module := 1; fn_address := 0x82010000 |} in
  let p := exec (LookupFunction host 0x82010000) Scenario.debugged in
  let p1 := exec (DemandFunction host f) p in
  DemandFunction host f p = Some (true, p1)
  /\ debugger_events p = []
  /\ debugger_events p1 = [f]
  /\ debugger_events (exec (DemandFunction host f) p1) = [f].
Proof.
  intros host f p p1.
  assert (Hrun : DemandFunction host f p = Some (true, p1)).
  { apply (run_exec (DemandFunction host f) p). vm_compute; reflexivity. }
  split; [exact Hrun|]. split; [vm_compute; reflexivity|].
  destruct (DemandFunction_tells_debugger host f p true p1 Hrun)
    as (fn & Hsym & Hdbg).
  split; [|vm_compute; reflexivity].
  rewrite Hdbg.
  assert (Hfn : Function.status <$> symbol_at f p = Some Symbol.kDeclared)
    by (vm_compute; reflexivity).
  rewrite Hsym in Hfn. injection Hfn as ->.
  vm_compute; reflexivity.
Defined.

(** ** Resolving, again *)

Lemma containing_module_None a mods :
  (forall md, md ∈ mods -> ContainsAddress md a = false) ->
  containing_module a mods = None.
Proof.
  intros Hnone. unfold containing_module.
  rewrite (proj2 (list_find_None _ mods)); [done|].
  apply Forall_forall. intros md Hmd. by rewrite (Hnone md Hmd).
Qed.

(** An entry that was just created is as good as none. *)
Lemma ResolveFunction_fresh_entry host a q :
  entry_table_ q !! a = None ->
  ResolveFunction host a
    (set_entry_table
       (<[a := {| Entry.address := a; Entry.end_address := 0;
                  Entry.status := Entry.STATUS_NEW;
                  Entry.function := None |}]>) q)
  = ResolveFunction host a q.
Proof.
  intros Hnone.
  unfold ResolveFunction, EntryTable_GetOrCreate, bind, gets, modify, ret.
  cbn. by rewrite lookup_insert_eq, Hnone.
Qed.

Lemma GetOrCreate_existing a p e :
  entry_table_ p !! a = Some e ->
  EntryTable_GetOrCreate a p = Some (Entry.status e, p).
Proof.
  intros He. unfold EntryTable_GetOrCreate, bind, gets, ret. by rewrite He.
Qed.

Lemma GetOrCreate_missing a p :
  entry_table_ p !! a = None ->
  EntryTable_GetOrCreate a p
  = Some (Entry.STATUS_NEW,
          set_entry_table
            (<[a := {| Entry.address := a; Entry.end_address := 0;
                       Entry.status := Entry.STATUS_NEW;
                       Entry.function := None |}]>) p).
Proof.
  intros He. unfold EntryTable_GetOrCreate, bind, gets, modify, ret.
  by rewrite He.
Qed.

(** X13: when no module contains the address, [ResolveFunction] answers
    null without calling the frontend and without touching the modules;
    the entry of the address is left in state NEW (it is created if it
    was not there), and no other entry changes. *)
Theorem ResolveFunction_without_module host a p :
  (forall md, md ∈ modules_ p -> ContainsAddress md a = false) ->
  (forall e, entry_table_ p !! a = Some e ->
             Entry.status e = Entry.STATUS_NEW) ->
  exists p',
    ResolveFunction host a p = Some (None, p')
    /\ modules_ p' = modules_ p
    /\ frontend_calls p' = frontend_calls p
    /\ (exists e, entry_table_ p' !! a = Some e
                  /\ Entry.status e = Entry.STATUS_NEW)
    /\ (forall b, b <> a -> entry_table_ p' !! b = entry_table_ p !! b).
Proof.
  intros Hnone%containing_module_None Hnew.
  destruct (entry_table_ p !! a) as [e|] eqn:He.
  - assert (Hrun : ResolveFunction host a p = Some (None, p)).
    { unfold ResolveFunction.
      rewrite (bind_run _ _ _ _ _ (GetOrCreate_existing a p e He)).
      rewrite (Hnew e eq_refl). lazy beta iota zeta.
      by rewrite (bind_run _ _ _ _ _
                    (LookupFunction_no_module host a p Hnone)). }
    exists p. repeat split; try done. exists e. split; [done|]. by apply Hnew.
  - eexists. split.
    { unfold ResolveFunction.
      rewrite (bind_run _ _ _ _ _ (GetOrCreate_missing a p He)).
      lazy beta iota zeta.
      match goal with
      | |- bind _ _ ?q = _ =>
          by rewrite (bind_run _ _ _ _ _
                        (LookupFunction_no_module host a q Hnone))
      end. }
    cbn. repeat split.
    + eexists. split; [apply lookup_insert_eq | reflexivity].
    + intros b Hb. by apply lookup_insert_ne.
Qed.

Lemma ResolveFunction_without_module_witness :
  let p := Fixture.booted Fixture.good in
  exists p',
    ResolveFunction Fixture.good 0x1800 p = Some (None, p')
    /\ frontend_calls p' = []
    /\ exists e, entry_table_ p' !! 0x1800 = Some e
                 /\ Entry.status e = Entry.STATUS_NEW.
Proof.
  intros p.
  destruct (ResolveFunction_without_module Fixture.good 0x1800 p)
    as (p' & Hrun & _ & Hcalls & He & _).
  - intros md Hmd.
    assert (Hp : modules_ p = [BuiltinModule; Fixture.game])
      by reflexivity.
    rewrite Hp in Hmd.
    apply list_elem_of_In in Hmd. cbn in Hmd.
    destruct Hmd as [<-|[<-|[]]]; reflexivity.
  - intros e He. vm_compute in He. discriminate.
  - exists p'. split; [exact Hrun|]. split; [exact Hcalls | exact He].
Defined.

Lemma AddModule_run module p :
  AddModule module p
  = Some (true, set_modules (fun ms => ms ++ [module]) p).
Proof. reflexivity. Qed.

(** X14: a resolution that found no module leaves nothing behind that
    matters: resolving, adding a module and resolving again ends exactly
    like adding the module and resolving once. *)
Theorem ResolveFunction_retry_after_AddModule host a p module :
  (forall md, md ∈ modules_ p -> ContainsAddress md a = false) ->
  entry_table_ p !! a = None ->
  bind (ResolveFunction host a)
    (fun _ => bind (AddModule module) (fun _ => ResolveFunction host a)) p
  = bind (AddModule module) (fun _ => ResolveFunction host a) p.
Proof.
  intros Hnone%containing_module_None He.
  assert (Hfirst : ResolveFunction host a p
            = Some (None,
                    set_entry_table
                      (<[a := {| Entry.address := a; Entry.end_address := 0;
                                 Entry.status := Entry.STATUS_NEW;
                                 Entry.function := None |}]>) p)).
  { unfold ResolveFunction.
    rewrite (bind_run _ _ _ _ _ (GetOrCreate_missing a p He)).
    lazy beta iota zeta.
    match goal with
    | |- bind _ _ ?q = _ =>
        by rewrite (bind_run _ _ _ _ _
                      (LookupFunction_no_module host a q Hnone))
    end. }
  rewrite (bind_run _ _ _ _ _ Hfirst).
  rewrite (bind_run _ _ _ _ _ (AddModule_run module p)).
  rewrite (bind_run _ _ _ _ _ (AddModule_run module (set_entry_table _ p))).
  exact (ResolveFunction_fresh_entry host a
           (set_modules (fun ms => ms ++ [module]) p) He).
Qed.

Lemma ResolveFunction_retry_after_AddModule_witness :
  let host := Fixture.good in
  let p := Fixture.booted host in
  fst <$> ResolveFunction host 0x1800 p = Some None
  /\ fst <$> bind (ResolveFunction host 0x1800)
               (fun _ => bind (AddModule Scenario.low)
                           (fun _ => ResolveFunction host 0x1800)) p
     = Some (Some {| fn_module := 2; fn_address := 0x1800 |}).
Proof.
  intros host p. split; [vm_compute; reflexivity|].
  rewrite (ResolveFunction_retry_after_AddModule host 0x1800 p Scenario.low).
  - vm_compute; reflexivity.
  - intros md Hmd.
    assert (Hp : modules_ p = [BuiltinModule; Fixture.game])
      by reflexivity.
    rewrite Hp in Hmd.
    apply list_elem_of_In in Hmd. cbn in Hmd.
    destruct Hmd as [<-|[<-|[]]]; reflexivity.
  - vm_compute; reflexivity.
Defined.

Lemma write_entry_run a g p e :
  entry_table_ p !! a = Some e ->
  write_entry a g p = Some (tt, set_entry_table (<[a := g e]>) p).
Proof.
  intros He. unfold write_entry, read_entry, bind, gets, deref, modify, ret.
  by rewrite He.
Qed.

Lemma read_entry_run a p e :
  entry_table_ p !! a = Some e -> read_entry a p = Some (e, p).
Proof.
  intros He. unfold read_entry, bind, gets, deref, ret. by rewrite He.
Qed.

(** X15: once a declaration has failed, the next [ResolveFunction] for the
    address finds the FAILED symbol, does not call the frontend, and it is
    this call that marks the entry FAILED. *)
Theorem ResolveFunction_after_declare_failure host a p e m fn :
  entry_table_ p !! a = Some e ->
  Entry.status e = Entry.STATUS_NEW ->
  containing_module a (modules_ p) = Some m ->
  symbol_at {| fn_module := m; fn_address := a |} p = Some fn ->
  Function.status fn = Symbol.kFailed ->
  ResolveFunction host a p
  = Some (None,
          set_entry_table
            (<[a := Entry.set_status Entry.STATUS_FAILED e]>) p).
Proof.
  intros He Hs Hm Hfn Hfailed.
  apply containing_module_Some in Hm as (md & Hfind).
  pose proof Hfn as (md' & Hmd' & Hsym)%symbol_at_Some. cbn in Hmd', Hsym.
  pose proof Hfind as (Hmd & _)%list_find_Some.
  rewrite Hmd in Hmd'. injection Hmd' as <-.
  unfold ResolveFunction.
  rewrite (bind_run _ _ _ _ _ (GetOrCreate_existing a p e He)), Hs.
  lazy beta iota zeta.
  rewrite (bind_run _ _ _ _ _
             (LookupFunction_existing host a p m md fn Hfind Hsym)).
  lazy beta iota zeta.
  rewrite (bind_run _ _ _ _ _ (DemandFunction_settled host _ p fn Hfn
             ltac:(rewrite Hfailed; discriminate))).
  rewrite Hfailed. cbn [Symbol.Status_eqb negb].
  by rewrite (bind_run _ _ _ _ _ (write_entry_run a _ p e He)).
Qed.

Lemma ResolveFunction_after_declare_failure_witness :
  let host := Fixture.declare_fails in
  let p := exec (ResolveFunction host 0x82010000) (Fixture.booted host) in
  let p' := exec (ResolveFunction host 0x82010000) p in
  Entry.status <$> entry_table_ p !! 0x82010000 = Some Entry.STATUS_NEW
  /\ fst <$> ResolveFunction host 0x82010000 p = Some None
  /\ Entry.status <$> entry_table_ p' !! 0x82010000
     = Some Entry.STATUS_FAILED
  /\ frontend_calls p' = frontend_calls p.
Proof.
  intros host p p'.
  pose proof (ResolveFunction_after_declare_failure host 0x82010000 p
                {| Entry.address := 0x82010000; Entry.end_address := 0;
                   Entry.status := Entry.STATUS_NEW;
                   Entry.function := None |}
                1 (Function.set_status Symbol.kFailed
                     (GuestFunction 0x82010000))) as Hrun.
  assert (Hp' : p' = set_entry_table
            (<[0x82010000 := Entry.set_status Entry.STATUS_FAILED
                 {| Entry.address := 0x82010000; Entry.end_address := 0;
                    Entry.status := Entry.STATUS_NEW;
                    Entry.function := None |}]>) p).
  { unfold p', exec. rewrite Hrun; [reflexivity|..];
      vm_compute; reflexivity. }
  split; [vm_compute; reflexivity|].
  split; [rewrite Hrun; [reflexivity|..]; vm_compute; reflexivity|].
  rewrite Hp'. cbn [entry_table_ frontend_calls set_entry_table].
  split; [by rewrite lookup_insert_eq | reflexivity].
Defined.

(** X16: no function of a builtin module can be resolved.  When the first
    module containing the address makes builtin functions, [ResolveFunction]
    runs into [assert_true(function->is_guest())]: in [LookupFunction] if
    the address has no symbol yet, in [DemandFunction] if [DefineBuiltin]
    has left a DECLARED builtin there. *)
Theorem ResolveFunction_of_builtin_faults host a p m md :
  (forall e, entry_table_ p !! a = Some e ->
             Entry.status e = Entry.STATUS_NEW) ->
  containing_module a (modules_ p) = Some m ->
  modules_ p !! m = Some md ->
  match map_ md !! a with
  | None => Function.is_guest (CreateFunction md a) = false
  | Some fn => Function.status fn = Symbol.kDeclared
               /\ Function.is_guest fn = false
  end ->
  ResolveFunction host a p = None.
Proof.
  intros Hnew Hm Hmd Hsym.
  apply containing_module_Some in Hm as (md' & Hfind).
  pose proof Hfind as (Hmd' & _)%list_find_Some.
  rewrite Hmd in Hmd'. injection Hmd' as <-.
  assert (Hstart : exists q,
            EntryTable_GetOrCreate a p = Some (Entry.STATUS_NEW, q)
            /\ modules_ q = modules_ p).
  { destruct (entry_table_ p !! a) as [e|] eqn:He.
    - exists p. rewrite (GetOrCreate_existing a p e He).
      by rewrite (Hnew e eq_refl).
    - eexists. by rewrite (GetOrCreate_missing a p He). }
  destruct Hstart as (q & Hstart & Hq).
  rewrite <- Hq in Hfind.
  unfold ResolveFunction. rewrite (bind_run _ _ _ _ _ Hstart).
  lazy beta iota zeta.
  destruct (map_ md !! a) as [fn|] eqn:Hfn.
  - destruct Hsym as [Hs Hguest].
    rewrite (bind_run _ _ _ _ _
               (LookupFunction_existing host a q m md fn Hfind Hfn)).
    lazy beta iota zeta.
    apply list_find_Some in Hfind as (Hmdq & _).
    unfold DemandFunction, Module_DefineFunction, read_function,
      read_module, bind, gets, deref, ret, assert_true. cbn.
    rewrite Hmdq, Hfn, Hs. cbn. by rewrite Hmdq, Hfn, Hguest.
  - unfold bind.
    by rewrite (LookupFunction_not_guest host a q m md Hfind Hfn Hsym).
Qed.

(** After [Setup], [0xFFFFFFF4] belongs to the builtin module. *)
Lemma ResolveFunction_of_builtin_faults_witness :
  ResolveFunction Fixture.good 0xFFFFFFF4 (Fixture.booted Fixture.good)
  = None.
Proof.
  apply (ResolveFunction_of_builtin_faults Fixture.good 0xFFFFFFF4
           (Fixture.booted Fixture.good) 0 BuiltinModule).
  - intros e He. vm_compute in He. discriminate.
  - vm_compute; reflexivity.
  - reflexivity.
  - reflexivity.
Defined.

Lemma LookupFunction_trace host a p :
  post (LookupFunction host a) p
    (fun x p' =>
       entry_table_ p' = entry_table_ p
       /\ debug_info_flags_ p' = debug_info_flags_ p
       /\ (frontend_calls p' = frontend_calls p
           \/ frontend_calls p' = frontend_calls p ++ [FeDeclare a])
       /\ forall f, x = Some f -> fn_address f = a).
Proof.
  unfold LookupFunction, LookupFunction_in, Module_DeclareFunction,
    Frontend_DeclareFunction, read_function, write_function, read_module.
  wp; cbn; repeat split; try (by left); try (by right);
    by intros ? [= <-].
Qed.

Lemma DemandFunction_trace host f p :
  post (DemandFunction host f) p
    (fun b p' =>
       entry_table_ p' = entry_table_ p
       /\ (frontend_calls p' = frontend_calls p
           \/ frontend_calls p'
              = frontend_calls p
                ++ [FeDefine (fn_address f) (debug_info_flags_ p)])
       /\ (b = true ->
           exists fn, symbol_at f p' = Some fn
                      /\ Function.status fn <> Symbol.kFailed
                      /\ Function.status fn <> Symbol.kDeclared)).
Proof.
  intros b p' Hrun.
  split; [exact (DemandFunction_keeps_entry_table host f p b p' Hrun)|].
  destruct (DemandFunction_cases host f p b p' Hrun)
    as (fn & Hsym & [(Hs & -> & ->)|(Hs & Hcalls & _ & Hsym')]).
  - split; [by left|]. intros Hb. exists fn. split; [exact Hsym|].
    split; [|exact Hs]. by destruct (Function.status fn).
  - split; [by right|]. intros ->. eexists. split; [exact Hsym'|]. done.
Qed.

(** X17: one [ResolveFunction] calls the frontend for the address it
    resolves only: at most one declaration, then at most one definition
    with the processor's debug flags. *)
Theorem ResolveFunction_calls_frontend_in_order host a p x p' :
  ResolveFunction host a p = Some (x, p') ->
  let declare := FeDeclare a in
  let define := FeDefine a (debug_info_flags_ p) in
  exists calls,
    frontend_calls p' = frontend_calls p ++ calls
    /\ (calls = [] \/ calls = [declare] \/ calls = [define]
        \/ calls = [declare; define]).
Proof.
  revert x p'. change (post (ResolveFunction host a) p
    (fun _ p' => exists calls,
       frontend_calls p' = frontend_calls p ++ calls
       /\ (calls = [] \/ calls = [FeDeclare a]
           \/ calls = [FeDefine a (debug_info_flags_ p)]
           \/ calls = [FeDeclare a; FeDefine a (debug_info_flags_ p)]))).
  unfold ResolveFunction, EntryTable_GetOrCreate, write_entry, read_entry.
  wp.
  all: try (wp_call LookupFunction_trace; wp).
  all: try (wp_call DemandFunction_trace; wp).
  all: unfold read_function, read_module; wp.
  all: cbn in *.
  all: try (exists []; rewrite app_nil_r; split; [done | by left]).
  all: repeat match goal with
         | H : _ /\ _ |- _ => destruct H
         end.
  all: repeat match goal with
         | H : forall f, Some ?g = Some f -> fn_address f = _ |- _ =>
             specialize (H g eq_refl)
         end.
  all: repeat match goal with
         | H : frontend_calls _ = _ \/ frontend_calls _ = _ |- _ =>
             destruct H as [H|H]
         end.
  all: repeat match goal with
         | H : frontend_calls ?q = _ |- context [frontend_calls ?q] =>
             rewrite H
         | H : debug_info_flags_ ?q = _ |- context [debug_info_flags_ ?q] =>
             rewrite H
         | H : fn_address ?f = _ |- context [fn_address ?f] => rewrite H
         end.
  all: rewrite <- ?app_assoc; cbn [app].
  all: first
         [ exists []; rewrite app_nil_r; split; [done | by left]
         | eexists; split; [reflexivity|]; tauto ].
Qed.

Lemma ResolveFunction_calls_frontend_in_order_witness :
  let host := Fixture.good in
  let p := exec (ResolveFunction host 0x82010000) (Fixture.booted host) in
  let p' := exec (ResolveFunction host 0x82010040) p in
  exists calls,
    frontend_calls p' = frontend_calls p ++ calls
    /\ (calls = [] \/ calls = [FeDeclare 0x82010040]
        \/ calls = [FeDefine 0x82010040 0]
        \/ calls = [FeDeclare 0x82010040; FeDefine 0x82010040 0]).
Proof.
  intros host p p'.
  apply (ResolveFunction_calls_frontend_in_order host 0x82010040 p
           (Some {| fn_module := 1; fn_address := 0x82010040 |}) p').
  apply (run_exec (ResolveFunction host 0x82010040) p).
  vm_compute; reflexivity.
Defined.

Lemma ResolveFunction_publishes host a p :
  (forall e, entry_table_ p !! a = Some e ->
             Entry.status e = Entry.STATUS_NEW) ->
  post (ResolveFunction host a) p
    (fun x p' =>
       forall F, x = Some F ->
         fn_address F = a
         /\ exists fn e,
              symbol_at F p' = Some fn
              /\ Function.status fn <> Symbol.kFailed
              /\ Function.status fn <> Symbol.kDeclared
              /\ entry_table_ p' !! a = Some e
              /\ Entry.status e = Entry.STATUS_READY
              /\ Entry.function e = Some F
              /\ Entry.end_address e = Function.end_address fn).
Proof.
  intros Hnew.
  unfold ResolveFunction, EntryTable_GetOrCreate, write_entry, read_entry.
  wp.
  all: try (wp_call LookupFunction_trace; wp).
  all: try (wp_call DemandFunction_trace; wp).
  all: unfold read_function, read_module; wp.
  all: cbn in *.
  all: intros F HF; try discriminate.
  all: try (exfalso;
            match goal with
            | Hn : (forall e, Some ?t = Some e -> _) |- _ =>
                specialize (Hn t eq_refl); congruence
            end).
  all: destruct H as (_ & _ & _ & Haddr); specialize (Haddr f eq_refl).
  all: destruct H0 as (_ & _ & Hdef).
  all: destruct a1; [|discriminate].
  all: destruct (Hdef eq_refl) as (fn & Hsym & Hnf & Hnd).
  all: rewrite lookup_insert_eq in H4, H5, H6.
  all: injection H4 as <-; injection H5 as <-; injection H6 as <-.
  all: cbn in HF; injection HF as <-.
  all: split; [exact Haddr|].
  all: assert (fn = a4) as ->
         by (unfold symbol_at in Hsym; rewrite H2, H3 in Hsym; congruence).
  all: exists a4; eexists.
  all: split; [unfold symbol_at; cbn; by rewrite H2, H3|].
  all: split; [exact Hnf|]; split; [exact Hnd|].
  all: split; [apply lookup_insert_eq|]; done.
Qed.

(** X18: a function that [ResolveFunction] translates and returns sits at
    the address asked for, is neither FAILED nor merely DECLARED, and the
    entry, now READY, points to it and records its end address. *)
Theorem ResolveFunction_success_publishes host a p F p' :
  (forall e, entry_table_ p !! a = Some e ->
             Entry.status e = Entry.STATUS_NEW) ->
  ResolveFunction host a p = Some (Some F, p') ->
  fn_address F = a
  /\ exists fn e,
       symbol_at F p' = Some fn
       /\ Function.status fn <> Symbol.kFailed
       /\ Function.status fn <> Symbol.kDeclared
       /\ entry_table_ p' !! a = Some e
       /\ Entry.status e = Entry.STATUS_READY
       /\ Entry.function e = Some F
       /\ Entry.end_address e = Function.end_address fn.
Proof.
  intros Hnew Hrun.
  exact (ResolveFunction_publishes host a p Hnew _ _ Hrun F eq_refl).
Qed.

Lemma ResolveFunction_success_publishes_witness :
  let host := Fixture.good in
  let p := Fixture.booted host in
  let F := {| fn_module := 1; fn_address := 0x82010000 |} in
  let p' := exec (ResolveFunction host 0x82010000) p in
  exists fn e,
    symbol_at F p' = Some fn
    /\ entry_table_ p' !! 0x82010000 = Some e
    /\ Entry.end_address e = Function.end_address fn
    /\ Function.end_address fn = 0x82010040.
Proof.
  intros host p F p'.
  destruct (ResolveFunction_success_publishes host 0x82010000 p F p')
    as (_ & fn & e & Hsym & _ & _ & He & _ & _ & Hend).
  - intros e He. vm_compute in He. discriminate.
  - apply (run_exec (ResolveFunction host 0x82010000) p).
    vm_compute; reflexivity.
  - exists fn, e. split; [exact Hsym|]. split; [exact He|].
    split; [exact Hend|].
    assert (H : Function.end_address <$> symbol_at F p' = Some 0x82010040)
      by (vm_compute; reflexivity).
    rewrite Hsym in H. by injection H.
Defined.

(** ** Entries stay coherent *)

Lemma entries_coherent_frame p p' a :
  entries_coherent p ->
  (forall b, b <> a -> entry_table_ p' !! b = entry_table_ p !! b) ->
  (forall e, entry_table_ p' !! a = Some e ->
     Entry.address e = a
     /\ (Entry.status e = Entry.STATUS_READY <-> is_Some (Entry.function e))) ->
  entries_coherent p'.
Proof.
  intros Hc Hframe Ha b e Hb.
  destruct (decide (b = a)) as [->|Hne]; [by apply Ha|].
  rewrite Hframe in Hb by done. by apply Hc.
Qed.

Lemma ResolveFunction_coherent host a p :
  entries_coherent p ->
  post (ResolveFunction host a) p (fun _ p' => entries_coherent p').
Proof.
  intros Hc.
  unfold ResolveFunction, EntryTable_GetOrCreate, write_entry, read_entry.
  wp.
  all: try (wp_call LookupFunction_keeps_entry_table; wp).
  all: try (wp_call DemandFunction_keeps_entry_table; wp).
  all: unfold read_function, read_module; wp.
  all: try done.
  all: apply (entries_coherent_frame p _ a Hc); cbn in *.
  all: try (intros b Hb; rewrite ?lookup_insert_ne by done; table_frame;
            rewrite ?lookup_insert_ne by done; reflexivity).
  all: table_frame.
  all: repeat match goal with
         | H : entry_table_ ?q = _, H' : context [entry_table_ ?q] |- _ =>
             rewrite H in H'
         end.
  all: intros e He; simplify_map_eq; cbn.
  all: repeat match goal with
         | H : entry_table_ _ !! _ = Some ?t |- _ =>
             destruct (Hc _ _ H) as [? [? ?]]; clear H
         end.
  all: split; [done|]; split; intros; try done; try (by eexists).
  all: try (exfalso; match goal with
                     | H : is_Some None |- _ => by destruct H
                     end).
  all: repeat match goal with
         | H : ?A -> _, H' : ?A |- _ => specialize (H H')
         end.
  all: try congruence; eauto.
Qed.

Lemma entries_coherent_same p p' :
  entry_table_ p' = entry_table_ p ->
  entries_coherent p -> entries_coherent p'.
Proof. intros Heq Hc a e. rewrite Heq. apply Hc. Qed.

Lemma Processor_new_coherent memory export_resolver debugger start :
  entries_coherent (Processor_new memory export_resolver debugger start).
Proof. intros a e He. cbn in He. by rewrite lookup_empty in He. Qed.

Lemma serve1_coherent host request p :
  entries_coherent p ->
  post (serve1 host request) p (fun _ p' => entries_coherent p').
Proof.
  intros Hc. destruct request as [a|a|b|m|]; cbn [serve1].
  - apply post_bind.
    eapply post_weaken; [by apply ResolveFunction_coherent|]. cbn beta.
    intros x p' Hc'. wp. exact Hc'.
  - unfold QueryFunction, EntryTable_Get. wp; exact Hc.
  - apply post_bind.
    eapply post_weaken; [apply DefineBuiltin_keeps_entry_table|]. cbn beta.
    intros x p' Hkeep. wp. by apply (entries_coherent_same p).
  - unfold AddModule. wp. by apply (entries_coherent_same p).
  - apply post_bind.
    eapply post_weaken; [apply Setup_keeps_entry_table|]. cbn beta.
    intros x p' Hkeep. wp. by apply (entries_coherent_same p).
Qed.

Lemma serve_coherent host requests :
  forall p, entries_coherent p ->
            post (serve host requests) p (fun _ p' => entries_coherent p').
Proof.
  induction requests as [|request rest IH]; intros p Hc; cbn [serve].
  - wp. exact Hc.
  - apply post_bind.
    eapply post_weaken; [by apply serve1_coherent|]. cbn beta.
    intros x p1 Hc1. apply post_bind.
    eapply post_weaken; [by apply IH|]. cbn beta.
    intros xs p2 Hc2. wp. exact Hc2.
Qed.

(** X19: on a processor whose entries are coherent, as they are on a new
    one, every sequence of [ResolveFunction], [QueryFunction],
    [DefineBuiltin], [AddModule] and [Setup] leaves them coherent: each
    entry sits under its own address and has a function exactly when it is
    READY.  So whatever function [QueryFunction] answers, [ResolveFunction]
    answers the same one, without translating and without changing the
    processor. *)
Theorem serve_keeps_entries_coherent host requests p xs p' :
  entries_coherent p ->
  serve host requests p = Some (xs, p') ->
  entries_coherent p'
  /\ forall a F,
       QueryFunction a p' = Some (Some F, p') ->
       ResolveFunction host a p' = Some (Some F, p').
Proof.
  intros Hc Hrun.
  pose proof (serve_coherent host requests p Hc xs p' Hrun) as Hc'.
  split; [exact Hc'|].
  intros a F Hq.
  unfold QueryFunction, EntryTable_Get, bind, gets, ret in Hq.
  destruct (entry_table_ p' !! a) as [e|] eqn:He; [|discriminate].
  injection Hq as Hf.
  destruct (Hc' a e He) as [_ [_ Hready]].
  assert (Hs : Entry.status e = Entry.STATUS_READY)
    by (apply Hready; rewrite Hf; by eexists).
  rewrite (ResolveFunction_settled host a p' e He) by (by rewrite Hs).
  by rewrite Hs, Hf.
Qed.

Lemma serve_keeps_entries_coherent_witness :
  let host := Fixture.define_fails in
  let requests := [Boot; Attach Fixture.game; Resolve 0x82010000;
                   Resolve 0x1800; Define Fixture.xk] in
  let p' := exec (serve host requests) Scenario.fresh in
  entries_coherent p'
  /\ Entry.status <$> entry_table_ p' !! 0x82010000
     = Some Entry.STATUS_FAILED
  /\ Entry.function <$> entry_table_ p' !! 0x82010000 = Some None.
Proof.
  intros host requests p'.
  destruct (serve_keeps_entries_coherent host requests Scenario.fresh
              [Done true; Done true; Found None; Found None;
               Found (Some {| fn_module := 0; fn_address := 0xFFFFFFF0 |})]
              p') as [Hc _].
  - apply Processor_new_coherent.
  - apply (run_exec (serve host requests) Scenario.fresh).
    vm_compute; reflexivity.
  - split; [exact Hc|]. split; vm_compute; reflexivity.
Defined.

(** ** Builtins, again *)

Lemma DefineBuiltin_frame name' handler arg0 arg1 p :
  post (DefineBuiltin name' handler arg0 arg1) p
    (fun f p' =>
       entry_table_ p' = entry_table_ p
       /\ frontend_calls p' = frontend_calls p
       /\ length (modules_ p') = length (modules_ p)
       /\ builtin_module_ p = Some (fn_module f)
       /\ fn_address f = next_builtin_address_ p
       /\ forall i, i <> fn_module f ->
                    modules_ p' !! i = modules_ p !! i).
Proof.
  unfold DefineBuiltin, Module_DeclareFunction, write_function, read_module.
  wp; cbn; repeat split; try done.
  all: try (by rewrite ?length_insert).
  all: intros i Hi; by rewrite ?list_lookup_insert_ne.
Qed.

(** X20: [DefineBuiltin] only declares.  It writes the symbol into the
    builtin module at the cursor and advances the cursor; it creates no
    entry, so that [QueryFunction] answers as before, it does not call the
    frontend, and it leaves every other module alone.  Before [Setup] there
    is no builtin module, and the call dereferences a null pointer. *)
Theorem DefineBuiltin_only_declares name' handler arg0 arg1 p :
  (builtin_module_ p = None ->
   DefineBuiltin name' handler arg0 arg1 p = None)
  /\ forall f p',
       DefineBuiltin name' handler arg0 arg1 p = Some (f, p') ->
       builtin_module_ p = Some (fn_module f)
       /\ fn_address f = next_builtin_address_ p
       /\ entry_table_ p' = entry_table_ p
       /\ (forall a, fst <$> QueryFunction a p' = fst <$> QueryFunction a p)
       /\ frontend_calls p' = frontend_calls p
       /\ forall i, i <> fn_module f ->
                    modules_ p' !! i = modules_ p !! i.
Proof.
  split.
  - intros Hnone.
    unfold DefineBuiltin, bind, gets, modify, deref. cbn. by rewrite Hnone.
  - intros f p' Hrun.
    destruct (DefineBuiltin_frame _ _ _ _ p f p' Hrun)
      as (Htable & Hcalls & _ & Hbm & Haddr & Hothers).
    repeat split; try done.
    intros a. unfold QueryFunction, EntryTable_Get, bind, gets, ret.
    rewrite Htable. by destruct (entry_table_ p !! a).
Qed.

Lemma DefineBuiltin_only_declares_witness :
  let p := Fixture.booted Fixture.good in
  let f := {| fn_module := 0; fn_address := 0xFFFFFFF0 |} in
  let p' := exec (DefineBuiltin "xk" 7 11 13) p in
  DefineBuiltin "xk" 7 11 13 p = Some (f, p')
  /\ fst <$> QueryFunction 0xFFFFFFF0 p' = Some None
  /\ modules_ p' !! 1%nat = Some Fixture.game
  /\ DefineBuiltin "xk" 7 11 13 Scenario.fresh = None.
Proof.
  intros p f p'.
  assert (Hrun : DefineBuiltin "xk" 7 11 13 p = Some (f, p')).
  { apply (run_exec (DefineBuiltin "xk" 7 11 13) p).
    vm_compute; reflexivity. }
  destruct (DefineBuiltin_only_declares "xk" 7 11 13 p) as [_ Hok].
  destruct (Hok f p' Hrun) as (_ & _ & _ & Hquery & _ & Hothers).
  split; [exact Hrun|].
  split; [rewrite Hquery; vm_compute; reflexivity|].
  split; [rewrite Hothers by (cbn; lia); reflexivity|].
  destruct (DefineBuiltin_only_declares "xk" 7 11 13 Scenario.fresh)
    as [Hnull _].
  apply Hnull. reflexivity.
Defined.

(** ** The guest call, again *)

(** X21: around the call, [Execute] touches [r1] and [lr] only.  The
    callee is entered with every other register as the caller had it and
    with [0xBCBCBCBC] for the return address; the caller gets back the
    callee's answer, the processor as the callee left it, and every
    register but [r1] as the callee left it. *)
Theorem Execute_passes_registers host ts a p f p1 :
  ResolveFunction host a p = Some (Some f, p1) ->
  let ctx_in := entry_context (context ts) in
  let out := Function_Call host f 0xBCBCBCBC p1 ctx_in in
  exists ts',
    Execute host ts a p = Some ((out.1.1, ts'), out.1.2)
    /\ (forall i : nat, i <> 1%nat ->
          r ctx_in !! i = r (context ts) !! i)
    /\ length (r ctx_in) = length (r (context ts))
    /\ (forall i : nat, i <> 1%nat ->
          r (context ts') !! i = r out.2 !! i)
    /\ length (r (context ts')) = length (r out.2).
Proof.
  intros Hres ctx_in out.
  rewrite (Execute_call _ _ _ _ _ _ Hres). cbn zeta.
  fold ctx_in. fold out.
  eexists. split; [reflexivity|]. cbn [context].
  split; [intros i Hi; by apply lookup_entry_context|].
  split; [unfold ctx_in, entry_context; cbn; by rewrite length_insert|].
  split; [intros i Hi; by apply lookup_exit_context|].
  unfold exit_context; cbn. by rewrite length_insert.
Qed.

Lemma Execute_passes_registers_witness :
  let host := Fixture.callee_clobbers_r3 in
  let p := Fixture.booted host in
  exists ts' p',
    Execute host Fixture.thread 0x82010000 p = Some ((false, ts'), p')
    /\ r (context ts') !! 3%nat = Some 0
    /\ r (context ts') !! 4%nat = Some 4.
Proof.
  intros host p.
  destruct (Execute_passes_registers host Fixture.thread 0x82010000 p
              {| fn_module := 1; fn_address := 0x82010000 |}
              (exec (ResolveFunction host 0x82010000) p))
    as (ts' & Hrun & _ & _ & Hout & _).
  - apply (run_exec (ResolveFunction host 0x82010000) p).
    vm_compute; reflexivity.
  - eexists ts', _. split; [exact Hrun|].
    split; rewrite Hout by lia; reflexivity.
Defined.

(** ** The whole of a first resolution *)

(** X22: the first resolution of an address, from start to end.  When the
    address has no entry, the first module containing it makes guest
    functions and has no symbol there, a frontend is installed and it
    declares the function, [ResolveFunction] returns: the frontend has been
    called twice, to declare and then to define.  If the definition
    succeeded the function is returned, DEFINED, and the entry is READY
    with the function's extent; if it failed nothing is returned and both
    the symbol and the entry are FAILED. *)
Theorem ResolveFunction_translates host a p m md fe extent :
  entry_table_ p !! a = None ->
  list_find (fun module => ContainsAddress module a = true) (modules_ p)
    = Some (m, md) ->
  map_ md !! a = None ->
  Function.is_guest (CreateFunction md a) = true ->
  frontend_ p = Some fe ->
  PPCFrontend_DeclareFunction host (frontend_calls p) a = Some extent ->
  let F := {| fn_module := m; fn_address := a |} in
  let flags := debug_info_flags_ p in
  let ok := PPCFrontend_DefineFunction host
              (frontend_calls p ++ [FeDeclare a]) a flags in
  exists p',
    ResolveFunction host a p = Some (if ok then Some F else None, p')
    /\ frontend_calls p'
       = frontend_calls p ++ [FeDeclare a; FeDefine a flags]
    /\ symbol_at F p'
       = Some (Function.set_status
                 (if ok then Symbol.kDefined else Symbol.kFailed)
                 (Function.set_end_address extent (CreateFunction md a)))
    /\ entry_table_ p' !! a
       = Some (if ok
               then {| Entry.address := a; Entry.end_address := extent;
                       Entry.status := Entry.STATUS_READY;
                       Entry.function := Some F |}
               else {| Entry.address := a; Entry.end_address := 0;
                       Entry.status := Entry.STATUS_FAILED;
                       Entry.function := None |}).
Proof.
  intros He Hfind Hfn Hguest Hfe Hdeclare F flags ok.
  set (fresh := {| Entry.address := a; Entry.end_address := 0;
                   Entry.status := Entry.STATUS_NEW;
                   Entry.function := None |}).
  set (p0 := set_entry_table (<[a := fresh]>) p).
  destruct (LookupFunction_declares host a p0 m md fe Hfind Hfn Hguest Hfe)
    as (p1 & Hlookup & Hcalls1 & Hsym1 & Hfe1 & Hflags1 & _ & Htable1).
  cbn [frontend_calls set_entry_table p0] in Hlookup, Hcalls1, Hsym1.
  rewrite Hdeclare in Hlookup, Hsym1.
  destruct (DemandFunction_defines host F p1 _ fe Hsym1 eq_refl Hguest)
    as (p2 & Hdemand & Hcalls2 & _ & Hsym2 & Htable2);
    [by rewrite Hfe1|].
  cbn [fn_address F] in Hdemand, Hcalls2.
  rewrite Hcalls1, Hflags1 in Hdemand, Hcalls2.
  cbn [debug_info_flags_ set_entry_table p0] in Hdemand, Hcalls2.
  fold flags in Hdemand, Hcalls2. fold ok in Hdemand.
  rewrite Hcalls1, Hflags1 in Hsym2.
  cbn [debug_info_flags_ set_entry_table p0 fn_address F] in Hsym2.
  fold flags in Hsym2. fold ok in Hsym2.
  assert (He2 : entry_table_ p2 !! a = Some fresh).
  { rewrite Htable2, Htable1. unfold p0. cbn. apply lookup_insert_eq. }
  assert (Hstart :
            ResolveFunction host a p
            = bind (DemandFunction host F)
                (fun demanded =>
                   if negb demanded then
                     bind (write_entry a
                             (Entry.set_status Entry.STATUS_FAILED))
                       (fun _ => ret None)
                   else
                     bind (write_entry a (Entry.set_function (Some F)))
                       (fun _ =>
                          bind (read_function F)
                            (fun fn =>
                               bind (write_entry a
                                       (Entry.set_end_address
                                          (Function.end_address fn)))
                                 (fun _ =>
                                    bind (write_entry a
                                            (Entry.set_status
                                               Entry.STATUS_READY))
                                      (fun _ =>
                                         bind (read_entry a)
                                           (fun e =>
                                              ret (Entry.function e)))))))
                p1).
  { unfold ResolveFunction.
    rewrite (bind_run _ _ _ _ _ (GetOrCreate_missing a p He)).
    lazy beta iota zeta. fold fresh. fold p0.
    by rewrite (bind_run _ _ _ _ _ Hlookup). }
  rewrite Hstart, (bind_run _ _ _ _ _ Hdemand).
  assert (Hread : forall q fn,
            symbol_at F q = Some fn -> read_function F q = Some (fn, q)).
  { intros q fn (mdq & Hmq & Hfq)%symbol_at_Some.
    unfold read_function, read_module, bind, gets, deref, ret.
    by rewrite Hmq, Hfq. }
  destruct ok; cbn [negb].
  - eexists. split.
    { rewrite (bind_run _ _ _ _ _ (write_entry_run a _ p2 fresh He2)).
      match goal with
      | |- bind (read_function F) _ ?q = _ =>
          rewrite (bind_run _ _ _ _ _ (Hread q _ Hsym2))
      end.
      rewrite (bind_run _ _ _ _ _
                 (write_entry_run a _ _ _ (lookup_insert_eq _ _ _))).
      rewrite (bind_run _ _ _ _ _
                 (write_entry_run a _ _ _ (lookup_insert_eq _ _ _))).
      rewrite (bind_run _ _ _ _ _
                 (read_entry_run a _ _ (lookup_insert_eq _ _ _))).
      reflexivity. }
    split; [cbn; rewrite Hcalls2; by rewrite <- app_assoc|].
    split; [exact Hsym2|].
    cbn. by rewrite lookup_insert_eq.
  - eexists. split.
    { by rewrite (bind_run _ _ _ _ _ (write_entry_run a _ p2 fresh He2)). }
    split; [cbn; rewrite Hcalls2; by rewrite <- app_assoc|].
    split; [exact Hsym2|].
    cbn. by rewrite lookup_insert_eq.
Qed.

Lemma ResolveFunction_translates_witness :
  let host := Fixture.good in
  let p := Fixture.booted host in
  exists p',
    ResolveFunction host 0x82010000 p
    = Some (Some {| fn_module := 1; fn_address := 0x82010000 |}, p')
    /\ frontend_calls p' = [FeDeclare 0x82010000; FeDefine 0x82010000 0]
    /\ Entry.end_address <$> entry_table_ p' !! 0x82010000
       = Some 0x82010040.
Proof.
  intros host p.
  destruct (ResolveFunction_translates host 0x82010000 p 1 Fixture.game
              mkPPCFrontend 0x82010040)
    as (p' & Hrun & Hcalls & _ & He); try reflexivity.
  exists p'. split; [exact Hrun|]. split; [exact Hcalls|].
  by rewrite He.
Defined.
